(** * scanimate: occlusion grids and frame compositing

    A shallow embedding of the array pipeline of [scanimate/scanimate.py]
    ([main], lines 69-103, repeated in the [__main__] scripts of the two
    [moire.py] files) and of the [Moire] class of [scanimate/moire.py] and
    [core/moire.py]; then of the subsampling of the frames, of the two
    scripts, of [Moire.apply_grid] and of the control flow of [main] around
    the pipeline.

    NumPy arrays are nested lists, outermost axis first; the shape of an array
    is read off the nesting and the arrays of interest are rectangular
    ([has_shape]).  Pixel values are integers: the frames are [uint8], the
    products and sums of [main] are taken in [float32], where they are exact
    (every intermediate value is an integer between 0 and 255 times the
    number of frames, below [2^24] for up to 65793 frames).  Indices, lengths
    and the stripe width are natural numbers; [img] is the frame stack after
    the subsampling of line 66.  Calls that raise return [Raise]. *)

From Stdlib Require Import ZArith Lia.
From stdpp Require Import base tactics option numbers list strings gmap.

(** * The pipeline of [main]

    ** Exceptions *)

Inductive exn : Type :=
  | ValueError
  | IndexError
  | NameError (name : string).

Inductive result (A : Type) : Type :=
  | Ok (a : A)
  | Raise (e : exn).
Arguments Ok {A} a.
Arguments Raise {A} e.

#[global] Instance result_ret : MRet result := λ A a, Ok a.
#[global] Instance result_bind : MBind result := λ A B f m,
  match m with
  | Ok a => f a
  | Raise e => Raise e
  end.
#[global] Instance result_fmap : FMap result := λ A B f m,
  match m with
  | Ok a => Ok (f a)
  | Raise e => Raise e
  end.

(** ** Arrays *)

Abbreviation pixel := (list Z) (only parsing).
Abbreviation line := (list (list Z)) (only parsing).
Abbreviation image := (list (list (list Z))) (only parsing).
Abbreviation stack := (list (list (list (list Z)))) (only parsing).

Definition has_shape3 (H W C : nat) (im : image) : Prop :=
  length im = H ∧
  Forall (λ row : line, length row = W ∧ Forall (λ px : pixel, length px = C) row) im.

Definition has_shape (a : stack) (F H W C : nat) : Prop :=
  length a = F ∧ Forall (has_shape3 H W C) a.

(** Elementwise application, three and four axes deep. *)
Definition map2 {A B} (f : A → B) (row : list (list A)) : list (list B) :=
  fmap (M:=list) (fmap (M:=list) f) row.

Definition map3 {A B} (f : A → B) (im : list (list (list A))) : list (list (list B)) :=
  fmap (M:=list) (map2 f) im.

Definition map4 {A B} (f : A → B) (a : list (list (list (list A))))
    : list (list (list (list B))) :=
  fmap (M:=list) (map3 f) a.

(** [a[r, c, ch]] and [a[k, r, c, ch]]. *)
Definition lookup3 (im : image) (r c ch : nat) : option Z :=
  row ← im !! r; px ← row !! c; px !! ch.

Definition lookup4 (a : stack) (k r c ch : nat) : option Z :=
  im ← a !! k; lookup3 im r c ch.

(** [np.zeros_like(img)] *)
Definition zeros_like (img : stack) : stack :=
  map4 (λ _, 0%Z) img.

(** ** Slices

    The indices selected by the slice [start::step] (positive [step]) on an
    axis of length [n]: [start, start+step, ...] below [n]; their number is
    computed as CPython does. *)
Definition slice_indices (start step n : nat) : list nat :=
  (λ j, start + j * step) <$>
    seq 0 (if decide (start < n) then (n - start - 1) / step + 1 else 0).

(** Assignment through a list of indices along one axis; [f] rewrites the
    selected sub-array. *)
Definition assign_at {A} (f : A → A) (idxs : list nat) (l : list A) : list A :=
  foldl (λ acc i, alter f i acc) l idxs.

(** Broadcast assignment of a scalar into a whole sub-array. *)
Definition fill (v : Z) (px : pixel) : pixel := (λ _, v) <$> px.

(** [grid[:, :, i::step, :] = 1] *)
Definition set_cols (i step : nat) (g : stack) : stack :=
  map2 (λ row : line,
    assign_at (fill 1%Z) (slice_indices i step (length row)) row) g.

(** [grid[:, i::step, :, :] = 1] *)
Definition set_rows (i step : nat) (g : stack) : stack :=
  (λ im : image,
    assign_at (fmap (M:=list) (fill 1%Z)) (slice_indices i step (length im)) im) <$> g.

(** [for i in range(stripewidth): grid[...i::step...] = 1]; a zero step makes
    the first assignment raise. *)
Definition stripe_loop (set : nat → nat → stack → stack) (sw step : nat)
    (g : stack) : result stack :=
  foldl (λ acc i, g' ← acc;
           if decide (step = 0) then Raise ValueError else Ok (set i step g'))
        (Ok g) (seq 0 sw).

(** ** [np.roll] along one axis

    [result[offset:] = a[:-offset]; result[:offset] = a[-offset:]] with
    [offset = shift % (n or 1)]. *)
Definition roll {A} (shift : nat) (l : list A) : list A :=
  let n := length l in
  let offset := shift mod (if decide (n = 0) then 1 else n) in
  if decide (offset = 0) then l
  else drop (n - offset) l ++ take (n - offset) l.

(** [np.roll(im, shift, axis=1)] and [np.roll(im, shift, axis=0)] on an
    [(H, W, C)] array. *)
Definition roll_axis1 (shift : nat) (im : image) : image := roll shift <$> im.
Definition roll_axis0 (shift : nat) (im : image) : image := roll shift im.

(** [for i in range(1, len(grid)): grid[i] = np.roll(grid[i], i*stripewidth, axis)] *)
Definition roll_loop (roll_ax : nat → image → image) (sw : nat) (g : stack) : stack :=
  foldl (λ acc i, alter (roll_ax (i * sw)) i acc) g (seq 1 (length g - 1)).

(** ** The last channel

    [a[..., -1] = v]: index [-1] of an axis of length [0] is out of bounds. *)
Definition set_last (v : Z) (px : pixel) : pixel := <[length px - 1 := v]> px.

Definition no_channel (im : image) : bool :=
  existsb (existsb (λ px : pixel, bool_decide (px = []))) im.

Definition set_last3 (v : Z) (im : image) : result image :=
  if no_channel im then Raise IndexError
  else Ok (map2 (set_last v) im).

Definition set_last4 (v : Z) (a : stack) : result stack :=
  if existsb no_channel a then Raise IndexError
  else Ok (map3 (set_last v) a).

(** ** Grid construction, [main] lines 69-95 *)

(** Lines 69-93: the stripes and their phase shifts. *)
Definition striped_grid (pattern : string) (sw : nat) (img : stack) : result stack :=
  let grid := zeros_like img in
  if decide (pattern = "hgrid") then
    grid ← stripe_loop set_cols sw (length img * sw) grid;
    Ok (roll_loop roll_axis1 sw grid)
  else if decide (pattern = "vgrid") then
    grid ← stripe_loop set_rows sw (length img * sw) grid;
    Ok (roll_loop roll_axis0 sw grid)
  else Ok grid.

(** Line 95: [grid[:,:,:,-1] = 1]. *)
Definition build_grid (pattern : string) (sw : nat) (img : stack) : result stack :=
  grid ← striped_grid pattern sw img;
  set_last4 1%Z grid.

(** ** Compositing, [main] lines 98-103 *)

(** The elementwise product of two images (for masks of zeros and ones,
    their elementwise AND) and of two stacks. *)
Definition mul3 (a b : image) : image :=
  zip_with (zip_with (zip_with Z.mul)) a b.

Definition mul4 (a b : stack) : stack := zip_with mul3 a b.

Definition add3 (a b : image) : image :=
  zip_with (zip_with (zip_with Z.add)) a b.

(** [np.sum(res, axis=0)] of a stack with at least one frame. *)
Definition sum_axis0 (a : stack) : image :=
  match a with
  | [] => []
  | im :: rest => foldl add3 im rest
  end.

(** [x.astype(np.uint8)] of a non-negative integral float.  [astype] is a
    plain C cast, not [np.clip]: values in [0..255] are kept, and for larger
    ones NumPy delivers the low eight bits ([400.] becomes [144]). *)
Definition astype_uint8 (x : Z) : Z := (x `mod` 256)%Z.

Definition scanimation (pattern : string) (sw : nat) (img : stack)
    : result (stack * image) :=
  grid ← build_grid pattern sw img;
  let res := mul4 img grid in
  let res := sum_axis0 res in
  res ← set_last3 255%Z res;
  Ok (grid, map3 astype_uint8 res).

(** [(255*grid[0]).astype(np.uint8)], the exported pattern. *)
Definition pattern_image (grid : stack) : result image :=
  match grid with
  | [] => Raise IndexError
  | g0 :: _ => Ok (map3 (λ v, astype_uint8 (255 * v)%Z) g0)
  end.

(** A constant frame, for examples. *)
Definition const_image (H W C : nat) (v : Z) : image :=
  replicate H (replicate W (replicate C v)).

(** * The [Moire] class ([scanimate/moire.py], [core/moire.py]) *)

Module Moire.

(** The attributes of an instance; the three numbers are Python integers. *)
Record t : Type := Build {
  _pattern : string;
  _stripe_width : Z;
  _num_frames : Z;
  _replications : Z;
  grid : list (list Z);
}.

(** The indices of the slice [0::step] on an axis of length [n], for any
    integer step: a zero step is refused, a negative one walks down from
    index [0]. *)
Definition slice_from_0 (step : Z) (n : nat) : result (list nat) :=
  if decide (step = 0)%Z then Raise ValueError
  else if decide (0 < step)%Z then Ok (slice_indices 0 (Z.to_nat step) n)
  else Ok (if decide (n = 0) then [] else [0]).

(** [make_grid]: the new attributes and whether the call returned.
    [np.zeros] refuses a negative size before anything is stored; the slice
    assignment fails after the zero grid has been stored. *)
Definition make_grid (self : t) : t * result () :=
  let size := (_stripe_width self * _num_frames self * _replications self)%Z in
  if decide (size < 0)%Z then (self, Raise ValueError)
  else
    let zeros := replicate (Z.to_nat size) (replicate (Z.to_nat size) 0%Z) in
    let with_grid g :=
      Build (_pattern self) (_stripe_width self) (_num_frames self) (_replications self) g in
    match slice_from_0 (_num_frames self) (length zeros) with
    | Raise e => (with_grid zeros, Raise e)
    | Ok idxs => (with_grid (assign_at (fill 1%Z) idxs zeros), Ok ())
    end.

(** [Moire(pattern, stripe_width, num_frames)]; the [grid] attribute does not
    exist before [make_grid] stores it. *)
Definition __init__ (pattern : string) (stripe_width num_frames : Z) : result t :=
  let self := Build pattern stripe_width num_frames 24%Z [] in
  match make_grid self with
  | (self, Ok _) => Ok self
  | (_, Raise e) => Raise e
  end.

(** The [replications] property and its setter. *)
Definition replications (self : t) : Z := _replications self.

Definition set_replications (val : Z) (self : t) : t :=
  Build (_pattern self) (_stripe_width self) (_num_frames self) val (grid self).

(** [__call__]: the test reads the bare name [num_frames], which Python
    resolves in the globals of the module, not in the instance. *)
Definition __call__ {A} (globals : gmap string Z) (self : t) (arr : list A) : result () :=
  match globals !! "num_frames" with
  | None => Raise (NameError "num_frames")
  | Some n =>
      if decide (Z.of_nat (length arr) = n) then Ok () else Raise ValueError
  end.

(** The integer globals of the module when it is imported, and after it has
    run as a script ([scanimate/moire.py], lines 106-111). *)
Definition imported_globals : gmap string Z := ∅.

Definition script_globals : gmap string Z :=
  <["stripe_width" := 1%Z]> (<["num_frames" := 5%Z]> (<["replications" := 64%Z]>
    (<["size" := 320%Z]> ∅))).

(** The calls that change an instance. *)
Inductive op : Type :=
  | MakeGrid
  | SetReplications (val : Z).

Definition run (self : t) (o : op) : t :=
  match o with
  | MakeGrid => (make_grid self).1
  | SetReplications val => set_replications val self
  end.

End Moire.

(** * Notions used in the statements *)

(** [np.transpose(im, (1, 0, 2))] of an image of width [W]. *)
Definition transpose (W : nat) (im : image) : image :=
  (λ c, (λ row : line, default [] (row !! c)) <$> im) <$> seq 0 W.

(** [np.clip(x, 0, 255)], the saturating narrowing. *)
Definition clip_uint8 (x : Z) : Z := Z.max 0 (Z.min 255 x).

(** [tabulate n g] is the list [g 0; ...; g (n-1)]. *)
Definition tabulate {A} (n : nat) (g : nat → A) : list A := g <$> seq 0 n.

Definition tab3 (H W C : nat) (g : nat → nat → nat → Z) : image :=
  tabulate H (λ r, tabulate W (λ c, tabulate C (g r c))).

Definition tab4 (F H W C : nat) (g : nat → nat → nat → nat → Z) : stack :=
  tabulate F (λ k, tab3 H W C (g k)).

(** The source index of entry [c] after a roll by [s] on an axis of length [n]. *)
Definition roll_src (n s c : nat) : nat := (c + n - s mod n) mod n.

(** The stripe test: coordinate [x] is visible when it falls in the first
    [sw] positions of its period. *)
Definition stripe_bit (sw period x : nat) : Z :=
  if decide (x mod period < sw) then 1%Z else 0%Z.

(** The coordinate along the striping axis. *)
Definition striping_coord (pattern : string) (r c : nat) : nat :=
  if decide (pattern = "hgrid") then c else r.

Definition striping_length (pattern : string) (H W : nat) : nat :=
  if decide (pattern = "hgrid") then W else H.

(** Entry [(k, r, c, ch)] of the grid after lines 77-93. *)
Definition stripe_entry (pattern : string) (sw F H W : nat) (k r c : nat) : Z :=
  if decide (pattern = "hgrid" ∨ pattern = "vgrid") then
    stripe_bit sw (F * sw)
      (roll_src (striping_length pattern H W) (k * sw) (striping_coord pattern r c))
  else 0%Z.

(** Entry [(k, r, c, ch)] of the grid after line 95. *)
Definition grid_entry (pattern : string) (sw F H W C : nat) (k r c ch : nat) : Z :=
  if decide (ch = C - 1) then 1%Z else stripe_entry pattern sw F H W k r c.

Definition sumZ (l : list Z) : Z := foldr Z.add 0%Z l.

(** [sum over k in range(n) of f k] *)
Definition sum_upto (n : nat) (f : nat → Z) : Z := sumZ (f <$> seq 0 n).

(** [img[k, r, c, ch]] of a rectangular stack, inside its bounds. *)
Definition entry (img : stack) (k r c ch : nat) : Z := default 0%Z (lookup4 img k r c ch).

(** The float32 sum of the masked frames at one position. *)
Definition masked_sum (pattern : string) (sw : nat) (img : stack) (F H W C : nat)
    (r c ch : nat) : Z :=
  sum_upto F (λ k, (entry img k r c ch * grid_entry pattern sw F H W C k r c ch)%Z).

(** The frames of the end-to-end example, with [C] channels. *)
Definition example_frames (C : nat) : stack :=
  [const_image 12 12 C 10%Z; const_image 12 12 C 20%Z; const_image 12 12 C 30%Z].

(** A row of [n] pixels whose channel values cycle through [vs]. *)
Definition cycle_row (n : nat) (px : Z → list Z) (vs : list Z) : list (list Z) :=
  (λ c, px (default 0%Z (vs !! (c mod length vs)))) <$> seq 0 n.

(** The frames hold [uint8] values. *)
Definition uint8_stack (img : stack) : Prop :=
  Forall (Forall (Forall (Forall (λ v : Z, (0 ≤ v ≤ 255)%Z)))) img.

(** * Further code: subsampling, the scripts of [moire.py], [apply_grid] *)

(** [img[0::step]] ([main] line 66 with [step = int(args.downsample)], the
    scripts with [step = 2]): the frames at the indices of the slice. *)
Definition subsample {A} (step : Z) (img : list A) : result (list A) :=
  match Moire.slice_from_0 step (length img) with
  | Ok idxs => Ok (omap (M:=list) (λ i, img !! i) idxs)
  | Raise e => Raise e
  end.

(** The second example of [scanimate/moire.py] (lines 152-178), with
    [stripe_width] as the script's variable: the same steps as [main] for
    ["hgrid"], the last channel being set before the rolls. *)
Definition script_grid (stripe_width : nat) (img : stack) : result stack :=
  let grid := zeros_like img in
  grid ← stripe_loop set_cols stripe_width (length img * stripe_width) grid;
  grid ← set_last4 1%Z grid;
  Ok (roll_loop roll_axis1 stripe_width grid).

Definition script_scanimation (stripe_width : nat) (img : stack)
    : result (stack * image) :=
  grid ← script_grid stripe_width img;
  let res := mul4 img grid in
  let res := sum_axis0 res in
  res ← set_last3 255%Z res;
  Ok (grid, map3 astype_uint8 res).

(** The example of [core/moire.py] (lines 121-138): one strided assignment
    [grid[:,:,0::img.shape[0],:] = 1], the last channel, rolls by [i]. *)
Definition core_script_grid (img : stack) : result stack :=
  let grid := zeros_like img in
  grid ← (if decide (length img = 0) then Raise ValueError
          else Ok (set_cols 0 (length img) grid));
  grid ← set_last4 1%Z grid;
  Ok (foldl (λ acc i, alter (roll_axis1 i) i acc) grid (seq 1 (length grid - 1))).

Definition core_script_scanimation (img : stack) : result (stack * image) :=
  grid ← core_script_grid img;
  let res := mul4 img grid in
  let res := sum_axis0 res in
  res ← set_last3 255%Z res;
  Ok (grid, map3 astype_uint8 res).

(** The roll of one image along the striping axis of a pattern. *)
Definition roll_along (pattern : string) (shift : nat) (im : image) : image :=
  if decide (pattern = "hgrid") then roll_axis1 shift im else roll_axis0 shift im.

(** The shape of a two-dimensional array; an array without rows is taken to
    have no columns. *)
Definition shape2 (a : list (list Z)) : nat * nat :=
  (length a, default 0 (length <$> head a)).

(** NumPy broadcasting of two axis lengths: equal, or one of them 1. *)
Definition broadcast_dim (a b : nat) : result nat :=
  if decide (a = b) then Ok a
  else if decide (a = 1) then Ok b
  else if decide (b = 1) then Ok a
  else Raise ValueError.

(** The index read on an axis of length [n] for position [i] of the result. *)
Definition bidx (n i : nat) : nat := if decide (n = 1) then 0 else i.

Definition at2 (a : list (list Z)) (r c : nat) : Z :=
  default 0%Z (row ← a !! r; row !! c).

(** [a * b] for two-dimensional arrays. *)
Definition mul_broadcast (a b : list (list Z)) : result (list (list Z)) :=
  h ← broadcast_dim (shape2 a).1 (shape2 b).1;
  w ← broadcast_dim (shape2 a).2 (shape2 b).2;
  Ok ((λ r, (λ c, (at2 a (bidx (shape2 a).1 r) (bidx (shape2 a).2 c) *
                   at2 b (bidx (shape2 b).1 r) (bidx (shape2 b).2 c))%Z)
              <$> seq 0 w) <$> seq 0 h).

(** [Moire.apply_grid], for a two-dimensional [arr]: [self.grid * arr]. *)
Definition apply_grid (self : Moire.t) (arr : list (list Z)) : result (list (list Z)) :=
  mul_broadcast (Moire.grid self) arr.

(** A rectangular two-dimensional array. *)
Definition has_shape2 (h w : nat) (a : list (list Z)) : Prop :=
  length a = h ∧ Forall (λ row, length row = w) a.

(** * The command line ([scanimate/scanimate.py], [_build_parser] and [main])

    The collaborators of [main] (argparse, pathlib, imageio, matplotlib, os)
    are not modelled: the command line is given by the way each option
    appears on it, the file system and the decoder by the answers they give,
    and the calls [main] makes to print, show or write are recorded in
    order. *)

Module Cli.

(** An option declared with [nargs='?']: absent, present without a value, or
    present with one. *)
Inductive opt : Type :=
  | Absent
  | Bare
  | Given (s : string).

(** The values found in the namespace: [None], an integer default or
    constant, or the string read from the command line (no [type=] is
    declared, so a value given on the command line stays a string). *)
Inductive value : Type :=
  | VNone
  | VInt (z : Z)
  | VStr (s : string).

(** [add_argument(..., nargs='?', const=c, default=d)] *)
Definition optional (const default : value) (o : opt) : value :=
  match o with
  | Absent => default
  | Bare => const
  | Given s => VStr s
  end.

Record command_line : Type := {
  cl_pattern : opt;
  cl_downsample : opt;
  cl_stripewidth : opt;
  cl_scan_dest : opt;
  cl_patt_dest : opt;
  cl_dest : opt;
  cl_image_source : list string;
}.

Record Namespace : Type := {
  pattern : value;
  downsample : value;
  stripewidth : value;
  scan_dest : value;
  patt_dest : value;
  dest : value;
  image_source : list string;
}.

(** [_build_parser().parse_args()], lines 29-39. *)
Definition parse_args (cl : command_line) : Namespace := {|
  pattern := optional (VStr "hgrid") (VStr "hgrid") (cl_pattern cl);
  downsample := optional (VInt 2) (VInt 1) (cl_downsample cl);
  stripewidth := optional (VInt 1) (VInt 1) (cl_stripewidth cl);
  scan_dest := optional (VStr ".") (VStr ".") (cl_scan_dest cl);
  patt_dest := optional (VStr ".") (VStr ".") (cl_patt_dest cl);
  dest := optional (VStr ".") VNone (cl_dest cl);
  image_source := cl_image_source cl;
|}.

(** What the collaborators answer: [Path(f).exists()],
    [Path(f).suffix.lower()], the frames [np.asarray(imageio.mimread(f))] as a
    four-axis array ([None] when the decoder raises), and [int(s)] on a
    string ([None] when it raises [ValueError]). *)
Record world : Type := {
  path_exists : string → bool;
  suffix_lower : string → string;
  mimread : string → option (list (list (list (list Z))));
  int_of_str : string → option Z;
}.

(** Paths built by [main]: [Path(s)], [p / name], [p.parent]. *)
Inductive path : Type :=
  | Path (s : string)
  | Div (p : path) (name : string)
  | Parent (p : path).

Inductive event : Type :=
  | PrintPaths (paths : list string)
  | PrintLine (s : string)
  | ImShow (res : list (list (list Z)))
  | Title (s : string)
  | Show
  | MakeDirs (p : path)
  | ImWrite (p : path) (im : list (list (list Z))).

Inductive failure : Type :=
  | TypeError
  | Raised (e : exn)
  | DecoderError.

Inductive outcome : Type :=
  | Returns
  | Raises (f : failure).

(** [int(args.downsample)] *)
Definition to_int (w : world) (v : value) : failure + Z :=
  match v with
  | VInt z => inr z
  | VStr s => match int_of_str w s with
              | Some z => inr z
              | None => inl (Raised ValueError)
              end
  | VNone => inl TypeError
  end.

(** Lines 69-103 on the namespace: [range(args.stripewidth)] refuses a
    string; it is reached only for the two known patterns. *)
Definition pipeline (args : Namespace) (img : list (list (list (list Z))))
    : failure + (list (list (list (list Z))) * list (list (list Z))) :=
  let pat := match pattern args with VStr s => s | _ => "" end in
  let run sw := match scanimation pat sw img with
                | Ok r => inr r
                | Raise e => inl (Raised e)
                end in
  match stripewidth args with
  | VInt z => run (Z.to_nat z)
  | _ => if decide (pat = "hgrid" ∨ pat = "vgrid") then inl TypeError else run 0
  end.

(** Lines 124-149: where the two images go. *)
Definition destinations (args : Namespace) : failure + (list path * path * path) :=
  match dest args with
  | VStr d => inr ([Path d], Div (Path d) "scanimation.png", Div (Path d) "pattern.png")
  | VInt _ => inl TypeError
  | VNone =>
      match scan_dest args, patt_dest args with
      | VStr s, VStr p => inr ([Parent (Path s); Parent (Path p)], Path s, Path p)
      | _, _ => inl TypeError
      end
  end.

(** [main], lines 50-159, after [parse_args]: the calls made, in order, and
    how the run ends. *)
Definition main (w : world) (args : Namespace) : list event * outcome :=
  match image_source args with
  | [] => ([], Raises TypeError)
  | first :: _ =>
    let paths := image_source args in
    if forallb (path_exists w) paths then
      let ev := [PrintPaths paths; PrintLine (suffix_lower w first)] in
      if decide (length paths = 1 ∧ suffix_lower w first = ".gif") then
        match mimread w first with
        | None => (ev, Raises DecoderError)
        | Some img =>
          match to_int w (downsample args) with
          | inl f => (ev, Raises f)
          | inr d =>
            match subsample d img with
            | Raise e => (ev, Raises (Raised e))
            | Ok img =>
              match pipeline args img with
              | inl f => (ev, Raises f)
              | inr (grid, res) =>
                let ev := ev ++ [ImShow res; Title "Static"; Show] in
                match destinations args with
                | inl f => (ev, Raises f)
                | inr (dirs, scan, patt) =>
                  let ev := ev ++ (MakeDirs <$> dirs) ++ [ImWrite scan res] in
                  match pattern_image grid with
                  | Raise e => (ev, Raises (Raised e))
                  | Ok p =>
                    (ev ++ [ImWrite patt p;
                            PrintLine "Finished processing your scanimation!"],
                     Returns)
                  end
                end
              end
            end
          end
        end
      else (ev ++ [PrintLine "Finished!"], Returns)
    else ([], Returns)
  end.

End Cli.

(** A world and command lines for examples: every path exists, the decoder
    returns two RGBA frames. *)
Definition example_world (suffix : string) : Cli.world :=
  Cli.Build_world (λ _, true) (λ _, suffix)
    (λ _, Some [const_image 1 2 4 9%Z; const_image 1 2 4 8%Z]) (λ _, None).

Definition example_command_line (stripewidth dest : Cli.opt) (sources : list string)
    : Cli.command_line :=
  Cli.Build_command_line Cli.Absent Cli.Absent stripewidth Cli.Absent Cli.Absent dest sources.

(** * Arrays given by their entries

    Every operation of the pipeline is described by its action on the
    entries of a table. *)

Section tabulate.
Context {A : Type}.
Implicit Types (g h : nat → A) (l : list A).

Lemma length_tabulate n g : length (tabulate n g) = n.
Proof. unfold tabulate. by rewrite length_fmap, length_seq. Qed.

Lemma lookup_tabulate n g i : i < n → tabulate n g !! i = Some (g i).
Proof.
  intros Hi. unfold tabulate.
  by rewrite list_lookup_fmap, lookup_seq_lt.
Qed.

Lemma lookup_tabulate_ge n g i : n ≤ i → tabulate n g !! i = None.
Proof. intros Hi. apply lookup_ge_None. by rewrite length_tabulate. Qed.

Lemma tabulate_ext n g h : (∀ i, i < n → g i = h i) → tabulate n g = tabulate n h.
Proof.
  intros Hgh. apply list_eq; intros i.
  destruct (decide (i < n)).
  - rewrite !lookup_tabulate by done. f_equal; auto.
  - rewrite !lookup_tabulate_ge by lia. done.
Qed.

Lemma list_as_tabulate l d : l = tabulate (length l) (λ i, default d (l !! i)).
Proof.
  apply list_eq; intros i. destruct (l !! i) as [x|] eqn:Hx.
  - rewrite lookup_tabulate by (by eapply lookup_lt_Some). by rewrite Hx.
  - rewrite lookup_tabulate_ge; [done|]. by apply lookup_ge_None.
Qed.

Lemma tabulate_eq_of_lookup n g l :
  length l = n → (∀ i, i < n → l !! i = Some (g i)) → l = tabulate n g.
Proof.
  intros Hn Hl. apply list_eq; intros i.
  destruct (decide (i < n)).
  - by rewrite lookup_tabulate, Hl.
  - rewrite lookup_tabulate_ge by lia. apply lookup_ge_None. lia.
Qed.

Lemma replicate_as_tabulate n (x : A) : replicate n x = tabulate n (λ _, x).
Proof.
  apply tabulate_eq_of_lookup; [apply length_replicate|].
  intros i Hi. by apply lookup_replicate_2.
Qed.

Lemma alter_tabulate (f : A → A) i n g :
  alter f i (tabulate n g) = tabulate n (λ j, if decide (j = i) then f (g j) else g j).
Proof.
  apply tabulate_eq_of_lookup.
  - by rewrite length_alter, length_tabulate.
  - intros j Hj. destruct (decide (j = i)) as [->|Hne].
    + by rewrite list_lookup_alter_eq, lookup_tabulate.
    + by rewrite list_lookup_alter_ne, lookup_tabulate.
Qed.
End tabulate.

Lemma fmap_tabulate {A B} (f : A → B) n (g : nat → A) : f <$> tabulate n g = tabulate n (λ i, f (g i)).
Proof. unfold tabulate. by rewrite <-list_fmap_compose. Qed.

Lemma zip_with_tabulate {A B C} (f : A → B → C) n (g : nat → A) (h : nat → B) :
  zip_with f (tabulate n g) (tabulate n h) = tabulate n (λ i, f (g i) (h i)).
Proof.
  apply tabulate_eq_of_lookup.
  - rewrite length_zip_with, !length_tabulate. lia.
  - intros i Hi. by rewrite lookup_zip_with, !lookup_tabulate.
Qed.

Lemma tab3_ext H W C g h :
  (∀ r c ch, r < H → c < W → ch < C → g r c ch = h r c ch) →
  tab3 H W C g = tab3 H W C h.
Proof. intros E. unfold tab3. do 3 (apply tabulate_ext; intros). auto. Qed.

Lemma tab4_ext F H W C g h :
  (∀ k r c ch, k < F → r < H → c < W → ch < C → g k r c ch = h k r c ch) →
  tab4 F H W C g = tab4 F H W C h.
Proof. intros E. apply tabulate_ext; intros. apply tab3_ext; auto. Qed.

Lemma lookup3_tab3 H W C g r c ch :
  r < H → c < W → ch < C → lookup3 (tab3 H W C g) r c ch = Some (g r c ch).
Proof.
  intros. unfold lookup3, tab3.
  rewrite lookup_tabulate by done; simpl.
  rewrite lookup_tabulate by done; simpl.
  by rewrite lookup_tabulate.
Qed.

Lemma lookup4_tab4 F H W C g k r c ch :
  k < F → r < H → c < W → ch < C →
  lookup4 (tab4 F H W C g) k r c ch = Some (g k r c ch).
Proof.
  intros. unfold lookup4, tab4.
  rewrite lookup_tabulate by done; simpl. by apply lookup3_tab3.
Qed.

Lemma has_shape3_tab3 H W C g : has_shape3 H W C (tab3 H W C g).
Proof.
  split; [apply length_tabulate|].
  apply Forall_forall; intros row [r [-> _]]%list_elem_of_fmap.
  split; [apply length_tabulate|].
  apply Forall_forall; intros px [c [-> _]]%list_elem_of_fmap.
  apply length_tabulate.
Qed.

Lemma has_shape_tab4 F H W C g : has_shape (tab4 F H W C g) F H W C.
Proof.
  split; [apply length_tabulate|].
  apply Forall_forall; intros im [k [-> _]]%list_elem_of_fmap.
  apply has_shape3_tab3.
Qed.

(** A rectangular array is the table of its entries. *)
Lemma has_shape3_as_tab3 H W C (im : image) :
  has_shape3 H W C im →
  im = tab3 H W C (λ r c ch, default 0%Z (lookup3 im r c ch)).
Proof.
  intros [HH Hrows]. apply tabulate_eq_of_lookup; [done|].
  intros r Hr. destruct (lookup_lt_is_Some_2 im r) as [row Hrow]; [lia|].
  rewrite Hrow. f_equal.
  destruct (Forall_lookup_1 _ _ _ _ Hrows Hrow) as [HW Hpxs].
  apply tabulate_eq_of_lookup; [done|].
  intros c Hc. destruct (lookup_lt_is_Some_2 row c) as [px Hpx]; [lia|].
  rewrite Hpx. f_equal.
  pose proof (Forall_lookup_1 _ _ _ _ Hpxs Hpx) as HC; simpl in HC.
  apply tabulate_eq_of_lookup; [done|].
  intros ch Hch. destruct (lookup_lt_is_Some_2 px ch) as [v Hv]; [lia|].
  unfold lookup3. rewrite Hrow; simpl. rewrite Hpx; simpl. by rewrite Hv.
Qed.

Lemma has_shape_as_tab4 F H W C (a : stack) :
  has_shape a F H W C →
  a = tab4 F H W C (λ k r c ch, default 0%Z (lookup4 a k r c ch)).
Proof.
  intros [HF Hims]. apply tabulate_eq_of_lookup; [done|].
  intros k Hk. destruct (lookup_lt_is_Some_2 a k) as [im Him]; [lia|].
  rewrite Him. f_equal.
  rewrite (has_shape3_as_tab3 H W C im) at 1
    by exact (Forall_lookup_1 _ _ _ _ Hims Him).
  apply tab3_ext; intros. unfold lookup4. by rewrite Him.
Qed.

Lemma map3_tab3 (f : Z → Z) H W C g :
  map3 f (tab3 H W C g) = tab3 H W C (λ r c ch, f (g r c ch)).
Proof.
  unfold map3, map2, tab3. rewrite fmap_tabulate.
  apply tabulate_ext; intros. rewrite fmap_tabulate.
  apply tabulate_ext; intros. by rewrite fmap_tabulate.
Qed.

Lemma map4_tab4 (f : Z → Z) F H W C g :
  map4 f (tab4 F H W C g) = tab4 F H W C (λ k r c ch, f (g k r c ch)).
Proof.
  unfold map4, tab4. rewrite fmap_tabulate.
  apply tabulate_ext; intros. apply map3_tab3.
Qed.

Lemma zeros_like_shape F H W C img :
  has_shape img F H W C → zeros_like img = tab4 F H W C (λ _ _ _ _, 0%Z).
Proof.
  intros Hs. unfold zeros_like.
  rewrite (has_shape_as_tab4 _ _ _ _ _ Hs) at 1. by rewrite map4_tab4.
Qed.

(** * Rolls and strided slices on tables *)

Lemma roll_src_lt n s c : 0 < n → roll_src n s c < n.
Proof. intros. unfold roll_src. apply Nat.mod_upper_bound. lia. Qed.

Lemma roll_tabulate {A} s n (g : nat → A) :
  roll s (tabulate n g) = tabulate n (λ c, g (roll_src n s c)).
Proof.
  unfold roll. rewrite length_tabulate.
  destruct (decide (n = 0)) as [->|Hn]; [by rewrite Nat.mod_1_r|].
  pose proof (Nat.mod_upper_bound s n Hn) as Hoff.
  unfold roll_src. set (off := s mod n) in *.
  destruct (decide (off = 0)) as [->|Hoff0].
  - apply tabulate_ext; intros c Hc. f_equal.
    replace (c + n - 0) with (c + 1 * n) by lia.
    rewrite Nat.Div0.mod_add. by rewrite Nat.mod_small.
  - apply tabulate_eq_of_lookup.
    + rewrite length_app, length_drop, length_take, length_tabulate. lia.
    + intros c Hc. rewrite lookup_app, lookup_drop, length_drop, length_tabulate.
      destruct (decide (c < off)).
      * rewrite lookup_tabulate by lia. f_equal.
        replace (c + n - off) with (n - off + c) by lia.
        by rewrite Nat.mod_small by lia.
      * rewrite lookup_tabulate_ge by lia.
        rewrite lookup_take, decide_True by lia.
        rewrite lookup_tabulate by lia. do 2 f_equal.
        replace (c + n - off) with (c - off + 1 * n) by lia.
        rewrite Nat.Div0.mod_add, Nat.mod_small by lia. lia.
Qed.

Lemma elem_of_slice_indices i step n c :
  i < step → c < n → c ∈ slice_indices i step n ↔ c mod step = i.
Proof.
  intros Hi Hc. unfold slice_indices. rewrite list_elem_of_fmap. split.
  - intros (j & -> & _). rewrite Nat.Div0.mod_add. by apply Nat.mod_small.
  - intros Hmod. exists (c / step).
    pose proof (Nat.div_mod_eq c step) as Hdm. rewrite Hmod in Hdm.
    split; [lia|]. apply elem_of_seq.
    rewrite decide_True by lia. split; [lia|].
    apply Nat.lt_succ_r, Nat.lt_succ_r.
    replace (S (S ((n - i - 1) / step))) with (S ((n - i - 1) / step + 1)) by lia.
    apply Nat.lt_succ_r. rewrite Nat.add_1_r. apply Nat.lt_succ_r, Nat.le_succ_l.
    apply Nat.lt_succ_r.
    apply Nat.div_le_lower_bound; lia.
Qed.

Lemma assign_at_tabulate {A} (f : A → A) idxs n (g : nat → A) :
  (∀ x, f (f x) = f x) →
  assign_at f idxs (tabulate n g) =
  tabulate n (λ c, if decide (c ∈ idxs) then f (g c) else g c).
Proof.
  intros Hf. unfold assign_at. revert g.
  induction idxs as [|i idxs IH]; intros g.
  - apply tabulate_ext; intros c _.
    case_decide as Hin; [by apply elem_of_nil in Hin|done].
  - cbn [foldl]. rewrite alter_tabulate, IH. apply tabulate_ext; intros c _.
    rewrite (decide_ext (c ∈ i :: idxs) (c = i ∨ c ∈ idxs)) by apply elem_of_cons.
    repeat case_decide; subst; rewrite ?Hf; try done; tauto.
Qed.

(** The [stripewidth] strided assignments along one axis mark the entries
    whose index is below [sw] modulo the step. *)
Lemma stripes_tabulate {A} (f : A → A) sw step n (g : nat → A) :
  (∀ x, f (f x) = f x) → sw ≤ step →
  foldl (λ acc i, assign_at f (slice_indices i step (length acc)) acc)
        (tabulate n g) (seq 0 sw) =
  tabulate n (λ c, if decide (c mod step < sw) then f (g c) else g c).
Proof.
  intros Hf. induction sw as [|sw IH]; intros Hle.
  - apply tabulate_ext; intros c _; cbv beta. case_decide; [lia|done].
  - rewrite seq_S, foldl_app, IH by lia. cbn [foldl].
    rewrite length_tabulate, assign_at_tabulate by done.
    apply tabulate_ext; intros c Hc; cbv beta.
    pose proof (elem_of_slice_indices sw step n c ltac:(lia) Hc) as Hin.
    repeat case_decide; rewrite ?Hf; try done; try lia.
    all: exfalso; rewrite Hin in *; lia.
Qed.

(** [for i in range(a, a+m): l[i] = f i (l[i])] *)
Lemma foldl_alter_seq {A} (f : nat → A → A) a m n (g : nat → A) :
  foldl (λ acc i, alter (f i) i acc) (tabulate n g) (seq a m) =
  tabulate n (λ k, if decide (a ≤ k < a + m) then f k (g k) else g k).
Proof.
  induction m as [|m IH].
  - apply tabulate_ext; intros k _; cbv beta. case_decide; [lia|done].
  - rewrite seq_S, foldl_app, IH. cbn [foldl]. rewrite alter_tabulate.
    apply tabulate_ext; intros k _; cbv beta.
    repeat case_decide; subst; try done; lia.
Qed.

(** * The grids of [main], entry by entry *)

Lemma foldl_fmap_list {A I} (F : I → A → A) (idxs : list I) (l : list A) :
  foldl (λ acc i, F i <$> acc) l idxs = (λ x, foldl (λ a i, F i a) x idxs) <$> l.
Proof.
  revert l. induction idxs as [|i idxs IH]; intros l; cbn [foldl].
  - by rewrite list_fmap_id.
  - by rewrite IH, <-list_fmap_compose.
Qed.

Lemma stripe_loop_ok set sw step g :
  0 < step ∨ sw = 0 →
  stripe_loop set sw step g = Ok (foldl (λ acc i, set i step acc) g (seq 0 sw)).
Proof.
  unfold stripe_loop. induction sw as [|sw IH]; intros Hs; [done|].
  rewrite !seq_S, !foldl_app, IH by lia. cbn.
  by rewrite decide_False by lia.
Qed.

Lemma stripe_loop_raise set sw step g :
  step = 0 → 0 < sw → stripe_loop set sw step g = Raise ValueError.
Proof.
  intros -> Hsw. unfold stripe_loop.
  destruct sw as [|sw]; [lia|]. clear Hsw.
  induction sw as [|sw IH]; [done|].
  by rewrite seq_S, foldl_app, IH.
Qed.

Lemma fill_tabulate v C g : fill v (tabulate C g) = tabulate C (λ _, v).
Proof. unfold fill. by rewrite fmap_tabulate. Qed.

Lemma fill_fill v px : fill v (fill v px) = fill v px.
Proof. unfold fill. by rewrite <-list_fmap_compose. Qed.

Lemma set_cols_loop F H W C sw step :
  sw ≤ step →
  foldl (λ acc i, set_cols i step acc) (tab4 F H W C (λ _ _ _ _, 0%Z)) (seq 0 sw) =
  tab4 F H W C (λ _ _ c _, stripe_bit sw step c).
Proof.
  intros Hle. unfold set_cols, map2.
  rewrite (foldl_fmap_list (λ i, fmap (M:=list) _)).
  unfold tab4. rewrite fmap_tabulate. apply tabulate_ext; intros k _.
  rewrite (foldl_fmap_list (λ i (row : line), assign_at _ _ row)).
  unfold tab3. rewrite fmap_tabulate. apply tabulate_ext; intros r _.
  rewrite (stripes_tabulate (fill 1%Z)) by (done || apply fill_fill).
  apply tabulate_ext; intros c _. unfold stripe_bit.
  case_decide; [by rewrite fill_tabulate|done].
Qed.

Lemma set_rows_loop F H W C sw step :
  sw ≤ step →
  foldl (λ acc i, set_rows i step acc) (tab4 F H W C (λ _ _ _ _, 0%Z)) (seq 0 sw) =
  tab4 F H W C (λ _ r _ _, stripe_bit sw step r).
Proof.
  intros Hle. unfold set_rows.
  rewrite (foldl_fmap_list (λ i (im : image), assign_at _ _ im)).
  unfold tab4. rewrite fmap_tabulate. apply tabulate_ext; intros k _.
  unfold tab3. rewrite (stripes_tabulate (fmap (M:=list) (fill 1%Z))); [|..|done].
  - apply tabulate_ext; intros r _. unfold stripe_bit.
    case_decide; [|done]. rewrite fmap_tabulate.
    apply tabulate_ext; intros c _. by rewrite fill_tabulate.
  - intros row. rewrite <-list_fmap_compose.
    apply list_fmap_ext; intros ? px _. apply fill_fill.
Qed.

Lemma roll_0 {A} (l : list A) : roll 0 l = l.
Proof. unfold roll. by rewrite Nat.Div0.mod_0_l, decide_True. Qed.

Lemma roll_loop_tabulate roll_ax sw F (G : nat → image) :
  (∀ im, roll_ax 0 im = im) →
  roll_loop roll_ax sw (tabulate F G) = tabulate F (λ k, roll_ax (k * sw) (G k)).
Proof.
  intros H0. unfold roll_loop.
  rewrite (foldl_alter_seq (λ i, roll_ax (i * sw))), length_tabulate.
  apply tabulate_ext; intros k Hk; cbv beta.
  case_decide; [done|]. replace k with 0 by lia. by rewrite H0.
Qed.

Lemma roll_axis1_tab3 s H W C g :
  roll_axis1 s (tab3 H W C g) = tab3 H W C (λ r c ch, g r (roll_src W s c) ch).
Proof.
  unfold roll_axis1, tab3. rewrite fmap_tabulate.
  apply tabulate_ext; intros r _. by rewrite roll_tabulate.
Qed.

Lemma roll_axis0_tab3 s H W C g :
  roll_axis0 s (tab3 H W C g) = tab3 H W C (λ r c ch, g (roll_src H s r) c ch).
Proof. unfold roll_axis0, tab3. by rewrite roll_tabulate. Qed.

Lemma striped_grid_entries pattern sw img F H W C :
  has_shape img F H W C → 1 ≤ F ∨ sw = 0 →
  striped_grid pattern sw img =
  Ok (tab4 F H W C (λ k r c _, stripe_entry pattern sw F H W k r c)).
Proof.
  intros Hs HF. unfold striped_grid, stripe_entry, striping_length, striping_coord.
  rewrite (zeros_like_shape _ _ _ _ _ Hs). destruct Hs as [-> _].
  assert (0 < F * sw ∨ sw = 0) as Hstep
    by (destruct HF as [HF| ->]; [destruct sw; [by right|left; nia]|by right]).
  assert (sw ≤ F * sw) as Hle by (destruct HF as [HF| ->]; [nia|lia]).
  destruct (decide (pattern = "hgrid")) as [->|Hh].
  - rewrite stripe_loop_ok, set_cols_loop by done. cbn. f_equal.
    unfold tab4. rewrite roll_loop_tabulate
      by (intros; unfold roll_axis1; rewrite <-(list_fmap_id im) at 2;
          apply list_fmap_ext; intros; apply roll_0).
    apply tabulate_ext; intros k _. rewrite roll_axis1_tab3.
    apply tab3_ext; intros. by rewrite decide_True by auto.
  - destruct (decide (pattern = "vgrid")) as [->|Hv].
    + rewrite stripe_loop_ok, set_rows_loop by done. cbn. f_equal.
      unfold tab4. rewrite roll_loop_tabulate by (intros; apply roll_0).
      apply tabulate_ext; intros k _. rewrite roll_axis0_tab3.
      apply tab3_ext; intros. by rewrite decide_True by auto.
    + f_equal. apply tab4_ext; intros. by rewrite decide_False by tauto.
Qed.

Lemma striped_grid_no_frame pattern sw :
  pattern = "hgrid" ∨ pattern = "vgrid" → 0 < sw →
  striped_grid pattern sw [] = Raise ValueError.
Proof.
  intros Hp Hsw. unfold striped_grid.
  destruct Hp as [-> | ->]; cbn [decide]; simpl.
  all: repeat case_decide; try done.
  all: by rewrite stripe_loop_raise.
Qed.

(** * The last channel and the composite, entry by entry *)

Lemma existsb_tabulate_false {A} (p : A → bool) n (g : nat → A) :
  (∀ i, i < n → p (g i) = false) → existsb p (tabulate n g) = false.
Proof.
  intros Hp. apply not_true_is_false. intros Hex.
  apply existsb_exists in Hex as (x & Hx & Hpx).
  apply list_elem_of_In, list_elem_of_fmap in Hx as (i & -> & Hi).
  apply elem_of_seq in Hi. rewrite Hp in Hpx by lia. done.
Qed.

Lemma no_channel_tab3 H W C g : 1 ≤ C → no_channel (tab3 H W C g) = false.
Proof.
  intros HC. unfold no_channel, tab3.
  apply existsb_tabulate_false; intros r _.
  apply existsb_tabulate_false; intros c _.
  apply bool_decide_eq_false. intros Hnil.
  apply (f_equal length) in Hnil. rewrite length_tabulate in Hnil. simpl in Hnil. lia.
Qed.

Lemma set_last_tabulate v C g :
  set_last v (tabulate C g) = tabulate C (λ ch, if decide (ch = C - 1) then v else g ch).
Proof.
  unfold set_last. rewrite length_tabulate. apply tabulate_eq_of_lookup.
  - by rewrite length_insert, length_tabulate.
  - intros ch Hch. case_decide as Hlast.
    + subst ch. apply list_lookup_insert_eq. by rewrite length_tabulate.
    + rewrite list_lookup_insert_ne by done. by apply lookup_tabulate.
Qed.

Lemma set_last3_tab3 v H W C g :
  1 ≤ C →
  set_last3 v (tab3 H W C g) =
  Ok (tab3 H W C (λ r c ch, if decide (ch = C - 1) then v else g r c ch)).
Proof.
  intros HC. unfold set_last3. rewrite no_channel_tab3 by done. f_equal.
  unfold map2, tab3. rewrite fmap_tabulate. apply tabulate_ext; intros r _.
  rewrite fmap_tabulate. apply tabulate_ext; intros c _. apply set_last_tabulate.
Qed.

Lemma set_last4_tab4 v F H W C g :
  1 ≤ C →
  set_last4 v (tab4 F H W C g) =
  Ok (tab4 F H W C (λ k r c ch, if decide (ch = C - 1) then v else g k r c ch)).
Proof.
  intros HC. unfold set_last4, tab4.
  rewrite existsb_tabulate_false by (intros; by apply no_channel_tab3). f_equal.
  unfold map3. rewrite fmap_tabulate. apply tabulate_ext; intros k _.
  pose proof (set_last3_tab3 v H W C (g k) HC) as Hk.
  unfold set_last3 in Hk. rewrite no_channel_tab3 in Hk by done. congruence.
Qed.

Lemma build_grid_entries pattern sw img F H W C :
  has_shape img F H W C → 1 ≤ F ∨ sw = 0 → 1 ≤ C →
  build_grid pattern sw img = Ok (tab4 F H W C (grid_entry pattern sw F H W C)).
Proof.
  intros Hs HF HC. unfold build_grid.
  rewrite (striped_grid_entries _ _ _ _ _ _ _ Hs HF). cbn.
  by rewrite set_last4_tab4.
Qed.

Lemma sumZ_app l1 l2 : sumZ (l1 ++ l2) = (sumZ l1 + sumZ l2)%Z.
Proof. unfold sumZ. induction l1 as [|x l1 IH]; simpl; lia. Qed.

Lemma sum_upto_S n f : sum_upto (S n) f = (sum_upto n f + f n)%Z.
Proof. unfold sum_upto. rewrite seq_S, fmap_app, sumZ_app. simpl. lia. Qed.

Lemma sum_upto_ext n f g : (∀ k, k < n → f k = g k) → sum_upto n f = sum_upto n g.
Proof.
  intros E. induction n as [|n IH]; [done|].
  rewrite !sum_upto_S, IH, E by (intros; auto with lia). done.
Qed.

Lemma sum_upto_bounds (n : nat) (f : nat → Z) (lo hi : Z) :
  (∀ k, k < n → (lo ≤ f k ≤ hi)%Z) →
  (Z.of_nat n * lo ≤ sum_upto n f ≤ Z.of_nat n * hi)%Z.
Proof.
  intros Hb. induction n as [|n IH]; [unfold sum_upto, sumZ; simpl; lia|].
  rewrite sum_upto_S. specialize (Hb n ltac:(lia)) as Hn.
  assert (∀ k, k < n → (lo ≤ f k ≤ hi)%Z) as Hb' by (intros; apply Hb; lia).
  specialize (IH Hb'). lia.
Qed.

Lemma add3_tab3 H W C g h :
  add3 (tab3 H W C g) (tab3 H W C h) = tab3 H W C (λ r c ch, (g r c ch + h r c ch)%Z).
Proof.
  unfold add3, tab3. rewrite zip_with_tabulate. apply tabulate_ext; intros r _.
  rewrite zip_with_tabulate. apply tabulate_ext; intros c _.
  by rewrite zip_with_tabulate.
Qed.

Lemma foldl_add3_tab3 H W C (g : nat → nat → nat → nat → Z) a m h :
  foldl add3 (tab3 H W C h) ((λ k, tab3 H W C (g k)) <$> seq a m) =
  tab3 H W C (λ r c ch, (h r c ch + sumZ ((λ k, g k r c ch) <$> seq a m))%Z).
Proof.
  revert a h. induction m as [|m IH]; intros a h.
  - apply tab3_ext; intros. unfold sumZ; simpl. lia.
  - cbn [seq]. rewrite fmap_cons. cbn [foldl]. rewrite add3_tab3, IH.
    apply tab3_ext; intros. rewrite fmap_cons. unfold sumZ. cbn [foldr]. lia.
Qed.

Lemma sum_axis0_tab4 F H W C g :
  1 ≤ F →
  sum_axis0 (tab4 F H W C g) = tab3 H W C (λ r c ch, sum_upto F (λ k, g k r c ch)).
Proof.
  intros HF. destruct F as [|F]; [lia|].
  unfold tab4, tabulate, sum_upto. cbn [seq fmap list_fmap sum_axis0].
  change (list_fmap _ _ ?f ?l) with (f <$> l).
  rewrite (foldl_add3_tab3 H W C g 1 F).
  apply tab3_ext; intros. done.
Qed.

Lemma mul3_tab3 H W C g h :
  mul3 (tab3 H W C g) (tab3 H W C h) = tab3 H W C (λ r c ch, (g r c ch * h r c ch)%Z).
Proof.
  unfold mul3, tab3. rewrite zip_with_tabulate. apply tabulate_ext; intros r _.
  rewrite zip_with_tabulate. apply tabulate_ext; intros c _.
  by rewrite zip_with_tabulate.
Qed.

Lemma mul4_tab4 F H W C g h :
  mul4 (tab4 F H W C g) (tab4 F H W C h) =
  tab4 F H W C (λ k r c ch, (g k r c ch * h k r c ch)%Z).
Proof.
  unfold mul4, tab4. rewrite zip_with_tabulate. apply tabulate_ext; intros k _.
  apply mul3_tab3.
Qed.

Lemma transpose_tab3 H W C g :
  transpose W (tab3 H W C g) = tab3 W H C (λ c r ch, g r c ch).
Proof.
  unfold transpose, tab3. fold (tabulate W (λ c, (λ row : list (list Z), default [] (row !! c)) <$>
    tabulate H (λ r, tabulate W (λ c0, tabulate C (g r c0))))).
  apply tabulate_ext; intros c Hc. rewrite fmap_tabulate.
  apply tabulate_ext; intros r _. by rewrite lookup_tabulate.
Qed.

Lemma const_image_as_tab3 H W C v : const_image H W C v = tab3 H W C (λ _ _ _, v).
Proof.
  unfold const_image, tab3. rewrite replicate_as_tabulate.
  apply tabulate_ext; intros _ _. rewrite replicate_as_tabulate.
  apply tabulate_ext; intros _ _. apply replicate_as_tabulate.
Qed.

Lemma scanimation_entries pattern sw img F H W C :
  has_shape img F H W C → 1 ≤ F → 1 ≤ C →
  scanimation pattern sw img =
  Ok (tab4 F H W C (grid_entry pattern sw F H W C),
      tab3 H W C (λ r c ch,
        astype_uint8 (if decide (ch = C - 1) then 255%Z
                      else masked_sum pattern sw img F H W C r c ch))).
Proof.
  intros Hs HF HC. unfold scanimation.
  rewrite (build_grid_entries _ _ _ _ _ _ _ Hs) by auto. cbn.
  rewrite (has_shape_as_tab4 _ _ _ _ _ Hs) at 1.
  rewrite mul4_tab4, sum_axis0_tab4, set_last3_tab3 by done. cbn.
  do 2 f_equal. rewrite map3_tab3. apply tab3_ext; intros. done.
Qed.

(** * Arithmetic of the phases *)

Lemma mod_of_decomp a P q r : r < P → a = q * P + r → a mod P = r.
Proof.
  intros Hr ->. rewrite Nat.add_comm, Nat.Div0.mod_add. by apply Nat.mod_small.
Qed.

Lemma mod_mod_multiple a P t : (a mod (t * P)) mod P = a mod P.
Proof.
  rewrite (Nat.div_mod_eq a (t * P)) at 2.
  replace (t * P * (a / (t * P)) + a mod (t * P))
    with (a mod (t * P) + (t * (a / (t * P))) * P) by lia.
  by rewrite Nat.Div0.mod_add.
Qed.

(** Among the phases [0..F-1] exactly the phase [(x mod period) / sw] shows
    coordinate [x], when the period divides the length of the axis. *)
Lemma stripe_bit_phase sw F L k x :
  0 < sw → k < F → x < L → (F * sw | L) →
  stripe_bit sw (F * sw) (roll_src L (k * sw) x) =
  if decide (k = (x mod (F * sw)) / sw) then 1%Z else 0%Z.
Proof.
  intros Hsw Hk Hx [t ->]. unfold stripe_bit, roll_src.
  set (P := F * sw) in *.
  assert (k * sw + sw ≤ P) as Hs by (unfold P; nia).
  assert (1 ≤ t) as Ht by (destruct t; simpl in *; lia).
  assert (P ≤ t * P) as HPL by nia.
  rewrite (Nat.mod_small (k * sw)) by lia.
  rewrite mod_mod_multiple.
  pose proof (Nat.div_mod_eq x P) as Hdx.
  pose proof (Nat.mod_upper_bound x P ltac:(lia)) as Hm.
  set (m := x mod P) in *. set (qx := x / P) in *.
  pose proof (Nat.div_mod_eq m sw) as Hdm.
  pose proof (Nat.mod_upper_bound m sw ltac:(lia)) as Hmm.
  set (q := m / sw) in *. set (rm := m mod sw) in *.
  destruct (decide (k * sw ≤ m)) as [Hle|Hgt].
  - rewrite (mod_of_decomp _ P (qx + t) (m - k * sw)) by nia.
    destruct (decide (k = q)) as [->|Hne].
    + rewrite decide_True by nia. done.
    + rewrite decide_False; [done|]. intros Hlt. apply Hne.
      destruct (decide (k < q)); [nia|].
      destruct (decide (q < k)); [nia|]. lia.
  - rewrite (mod_of_decomp _ P (qx + t - 1) (m + P - k * sw)) by nia.
    rewrite decide_False by lia.
    rewrite decide_False; [done|]. intros ->. nia.
Qed.

Lemma sum_upto_indicator n q :
  sum_upto n (λ k, if decide (k = q) then 1%Z else 0%Z) = if decide (q < n) then 1%Z else 0%Z.
Proof.
  induction n as [|n IH]; [done|].
  rewrite sum_upto_S, IH. repeat case_decide; lia.
Qed.

Lemma phase_of_coord_lt sw F x : 0 < sw → 0 < F → (x mod (F * sw)) / sw < F.
Proof.
  intros Hsw HF. apply Nat.Div0.div_lt_upper_bound.
  rewrite Nat.mul_comm. apply Nat.mod_upper_bound. nia.
Qed.

Lemma sum_upto_stripe_bit sw F L x :
  0 < sw → 0 < F → x < L → (F * sw | L) →
  sum_upto F (λ k, stripe_bit sw (F * sw) (roll_src L (k * sw) x)) = 1%Z.
Proof.
  intros Hsw HF Hx Hdiv.
  rewrite (sum_upto_ext _ _ (λ k, if decide (k = (x mod (F * sw)) / sw) then 1%Z else 0%Z))
    by (intros; by apply stripe_bit_phase).
  rewrite sum_upto_indicator. by rewrite decide_True by by apply phase_of_coord_lt.
Qed.

(** * Properties of the grids of [main] *)

Lemma striping_coord_lt pattern H W r c :
  r < H → c < W → striping_coord pattern r c < striping_length pattern H W.
Proof. intros. unfold striping_coord, striping_length. by case_decide. Qed.

Lemma lookup_tab4_frame F H W C g k :
  k < F → tab4 F H W C g !! k = Some (tab3 H W C (g k)).
Proof. intros. unfold tab4. by rewrite lookup_tabulate. Qed.

(** C1 (partition property).  When [stripe_width * frame_count] divides the
    length of the striping axis (the width for ["hgrid"], the height for
    ["vgrid"]), the phase-shifted grids built by lines 77-93 of [main], one per
    frame, add up elementwise to the all-ones array. *)
Theorem partition_property pattern sw (img : stack) F H W C :
  has_shape img F H W C → 1 ≤ F → 1 ≤ sw →
  pattern = "hgrid" ∨ pattern = "vgrid" →
  (F * sw | striping_length pattern H W) →
  ∃ g, striped_grid pattern sw img = Ok g ∧ sum_axis0 g = const_image H W C 1%Z.
Proof.
  intros Hs HF Hsw Hp Hdiv. eexists. split.
  - apply (striped_grid_entries _ _ _ _ _ _ _ Hs). by left.
  - rewrite sum_axis0_tab4, const_image_as_tab3 by done.
    apply tab3_ext; intros r c ch Hr Hc _. unfold stripe_entry.
    rewrite (sum_upto_ext _ _ (λ k, stripe_bit sw (F * sw)
      (roll_src (striping_length pattern H W) (k * sw) (striping_coord pattern r c))))
      by (intros; by rewrite decide_True).
    apply sum_upto_stripe_bit; [lia..| |done]. by apply striping_coord_lt.
Qed.

Lemma partition_property_witness :
  ∃ g, striped_grid "hgrid" 2 [const_image 2 4 3 7%Z; const_image 2 4 3 9%Z] = Ok g
       ∧ sum_axis0 g = const_image 2 4 3 1%Z.
Proof.
  apply (partition_property "hgrid" 2 _ 2 2 4 3).
  - split; [done|]. repeat (constructor; [repeat constructor|]). constructor.
  - lia.
  - lia.
  - by left.
  - exists 1. reflexivity.
Defined.

(** C4, as stated, fails: without the divisibility condition two phases can
    overlap.  Three frames of width 4 and stripe width 1: the period 3 does
    not divide 4, and phases 0 and 1 are both visible in column 0. *)
Lemma disjointness_counterexample :
  ∃ g g0 g1,
    striped_grid "hgrid" 1
      [const_image 1 4 1 0%Z; const_image 1 4 1 0%Z; const_image 1 4 1 0%Z] = Ok g
    ∧ g !! 0 = Some g0 ∧ g !! 1 = Some g1
    ∧ mul3 g0 g1 = [[[1%Z]; [0%Z]; [0%Z]; [0%Z]]]
    ∧ mul3 g0 g1 ≠ const_image 1 4 1 0%Z.
Proof. do 3 eexists. repeat split; try reflexivity. vm_compute. discriminate. Qed.

(** C4 (disjointness), amended.  When [stripe_width * frame_count] divides the
    length of the striping axis, the grids of two distinct phases have an
    all-zero elementwise product. *)
Theorem disjointness_when_period_divides pattern sw (img : stack) F H W C k j :
  has_shape img F H W C → 1 ≤ sw →
  pattern = "hgrid" ∨ pattern = "vgrid" →
  (F * sw | striping_length pattern H W) →
  k < F → j < F → k ≠ j →
  ∃ g gk gj, striped_grid pattern sw img = Ok g
    ∧ g !! k = Some gk ∧ g !! j = Some gj
    ∧ mul3 gk gj = const_image H W C 0%Z.
Proof.
  intros Hs Hsw Hp Hdiv Hk Hj Hkj. do 3 eexists. split; [|split; [|split]].
  - apply (striped_grid_entries _ _ _ _ _ _ _ Hs). left; lia.
  - by apply lookup_tab4_frame.
  - by apply lookup_tab4_frame.
  - rewrite mul3_tab3, const_image_as_tab3.
    apply tab3_ext; intros r c ch Hr Hc _. unfold stripe_entry.
    rewrite !decide_True by done.
    pose proof (striping_coord_lt pattern H W r c Hr Hc) as Hx.
    rewrite !stripe_bit_phase by (done || lia).
    repeat case_decide; lia.
Qed.

Lemma disjointness_when_period_divides_witness :
  ∃ g gk gj,
    striped_grid "vgrid" 1 [const_image 4 2 1 5%Z; const_image 4 2 1 6%Z] = Ok g
    ∧ g !! 0 = Some gk ∧ g !! 1 = Some gj
    ∧ mul3 gk gj = const_image 4 2 1 0%Z.
Proof.
  apply (disjointness_when_period_divides "vgrid" 1 _ 2 4 2 1 0 1).
  - split; [done|]. repeat (constructor; [repeat constructor|]). constructor.
  - lia.
  - by right.
  - exists 2. reflexivity.
  - lia.
  - lia.
  - lia.
Defined.

(** C9 (orientation symmetry).  The stripes built with ["hgrid"] on frames of
    footprint [(h, w)], transposed frame by frame, are the stripes built with
    ["vgrid"] on frames of footprint [(w, h)]; both constructions fail
    together when there is no frame. *)
Theorem orientation_symmetry sw (img1 img2 : stack) F h w C :
  has_shape img1 F h w C → has_shape img2 F w h C →
  fmap (M:=result) (fmap (M:=list) (transpose w)) (striped_grid "hgrid" sw img1)
  = striped_grid "vgrid" sw img2.
Proof.
  intros Hs1 Hs2. destruct (decide (1 ≤ F ∨ sw = 0)) as [HF|HF].
  - rewrite (striped_grid_entries _ _ _ _ _ _ _ Hs1 HF).
    rewrite (striped_grid_entries _ _ _ _ _ _ _ Hs2 HF). cbn. f_equal.
    unfold tab4. rewrite fmap_tabulate. apply tabulate_ext; intros k _.
    rewrite transpose_tab3. apply tab3_ext; intros. done.
  - destruct Hs1 as [Hl1 _], Hs2 as [Hl2 _].
    destruct img1; [|simpl in *; lia]. destruct img2; [|simpl in *; lia].
    rewrite !striped_grid_no_frame by (auto || lia). done.
Qed.

Lemma orientation_symmetry_witness :
  fmap (M:=result) (fmap (M:=list) (transpose 3))
    (striped_grid "hgrid" 1 [const_image 2 3 1 0%Z; const_image 2 3 1 0%Z])
  = striped_grid "vgrid" 1 [const_image 3 2 1 0%Z; const_image 3 2 1 0%Z].
Proof.
  apply (orientation_symmetry 1 _ _ 2 2 3 1).
  - split; [done|]. repeat (constructor; [repeat constructor|]). constructor.
  - split; [done|]. repeat (constructor; [repeat constructor|]). constructor.
Defined.

(** The roll, read on integers: entry [c] of the rolled axis is entry
    [(c - s) mod n] of the original. *)
Lemma roll_src_Z n s c :
  0 < n → Z.of_nat (roll_src n s c) = ((Z.of_nat c - Z.of_nat s) `mod` Z.of_nat n)%Z.
Proof.
  intros Hn. unfold roll_src.
  pose proof (Nat.mod_upper_bound s n ltac:(lia)) as Hlt.
  rewrite Nat2Z.inj_mod, Nat2Z.inj_sub, Nat2Z.inj_add, Nat2Z.inj_mod by lia.
  rewrite (Z.mod_eq (Z.of_nat s) (Z.of_nat n)) by lia.
  replace (Z.of_nat c + Z.of_nat n -
           (Z.of_nat s - Z.of_nat n * (Z.of_nat s `div` Z.of_nat n)))%Z
    with (Z.of_nat c - Z.of_nat s + (1 + Z.of_nat s `div` Z.of_nat n) * Z.of_nat n)%Z
    by lia.
  by rewrite Z_mod_plus_full.
Qed.

Lemma stripe_bit_Z sw period x :
  stripe_bit sw period x = 1%Z ↔
  0 < period ∧ (Z.of_nat x `mod` Z.of_nat period < Z.of_nat sw)%Z ∨
  period = 0 ∧ x < sw.
Proof.
  unfold stripe_bit. destruct (decide (period = 0)) as [->|Hp].
  - rewrite Nat.mod_0_r. case_decide; split; try done; lia.
  - rewrite <-Nat2Z.inj_mod. case_decide; split; try done; lia.
Qed.

(** X1.  The stripe rule of [main], lines 77-93: in phase [k] the entry at
    coordinate [x] of the striping axis, of length [L], is one exactly when
    [((x - k*sw) mod L) mod (sw*F) < sw], and zero otherwise. *)
Lemma stripe_rule_main pattern sw (img : stack) F H W C k r c ch :
  has_shape img F H W C → 1 ≤ sw →
  pattern = "hgrid" ∨ pattern = "vgrid" →
  k < F → r < H → c < W → ch < C →
  ∃ g v, striped_grid pattern sw img = Ok g
    ∧ lookup4 g k r c ch = Some v
    ∧ (v = 0 ∨ v = 1)%Z
    ∧ (v = 1%Z ↔
       (((Z.of_nat (striping_coord pattern r c) - Z.of_nat k * Z.of_nat sw)
           `mod` Z.of_nat (striping_length pattern H W))
          `mod` (Z.of_nat sw * Z.of_nat F) < Z.of_nat sw)%Z).
Proof.
  intros Hs Hsw Hp Hk Hr Hc Hch. do 2 eexists. split; [|split; [|split]].
  - apply (striped_grid_entries _ _ _ _ _ _ _ Hs). left; lia.
  - by apply lookup4_tab4.
  - unfold stripe_entry, stripe_bit. repeat case_decide; auto.
  - unfold stripe_entry. rewrite decide_True by done.
    pose proof (striping_coord_lt pattern H W r c Hr Hc) as Hx.
    rewrite stripe_bit_Z, roll_src_Z by lia.
    rewrite Nat2Z.inj_mul, Nat2Z.inj_mul, (Z.mul_comm (Z.of_nat F)).
    split; [intros [[_ ?]|[? _]]; [done|nia]|intros ?; left; split; [nia|done]].
Qed.

(** * Properties of [Moire] *)

Lemma make_grid_rows (self : Moire.t) :
  let size := (Moire._stripe_width self * Moire._num_frames self *
               Moire._replications self)%Z in
  (0 ≤ size)%Z → (0 < Moire._num_frames self)%Z →
  Moire.make_grid self =
  (Moire.Build (Moire._pattern self) (Moire._stripe_width self)
     (Moire._num_frames self) (Moire._replications self)
     (tabulate (Z.to_nat size) (λ r,
        replicate (Z.to_nat size)
          (if decide (r mod Z.to_nat (Moire._num_frames self) = 0) then 1%Z else 0%Z))),
   Ok ()).
Proof.
  intros size Hsize Hnf. unfold Moire.make_grid, Moire.slice_from_0. fold size.
  rewrite decide_False, decide_False, decide_True by lia. do 2 f_equal.
  rewrite length_replicate, replicate_as_tabulate, assign_at_tabulate by apply fill_fill.
  apply tabulate_ext; intros r Hr; cbv beta.
  pose proof (elem_of_slice_indices 0 (Z.to_nat (Moire._num_frames self))
                (Z.to_nat size) r ltac:(lia) Hr) as Hin.
  unfold fill. rewrite fmap_replicate.
  repeat case_decide; try done; exfalso; rewrite Hin in *; lia.
Qed.

Lemma init_square pattern sw nf :
  (0 < sw)%Z → (0 < nf)%Z →
  ∃ m, Moire.__init__ pattern sw nf = Ok m
    ∧ length (Moire.grid m) = Z.to_nat (sw * nf * 24)
    ∧ Forall (λ row, length row = Z.to_nat (sw * nf * 24)) (Moire.grid m)
    ∧ Moire._stripe_width m = sw ∧ Moire._num_frames m = nf
    ∧ Moire._replications m = 24%Z.
Proof.
  intros Hsw Hnf. unfold Moire.__init__.
  rewrite make_grid_rows by (simpl; nia). simpl.
  eexists. split; [done|]. simpl. split; [apply length_tabulate|].
  split; [|done]. apply Forall_forall; intros row [r [-> _]]%list_elem_of_fmap.
  apply length_replicate.
Qed.

(** C2 (stripe rule).  [Moire.make_grid] sizes the grid by the period
    [stripe_width * num_frames] but stripes it with step [num_frames] and a
    single offset: with [stripe_width = 2] and [num_frames = 3] row 1 is dark
    although [1 mod 6 < 2], and row 3 is visible although [3 mod 6 >= 2]. *)
Theorem make_grid_ignores_stripe_width :
  ∃ m, Moire.__init__ "vgrid" 2 3 = Ok m
    ∧ length (Moire.grid m) = 144
    ∧ Moire.grid m !! 1 = Some (replicate 144 0%Z) ∧ 1 mod (2 * 3) < 2
    ∧ Moire.grid m !! 3 = Some (replicate 144 1%Z) ∧ ¬ 3 mod (2 * 3) < 2.
Proof.
  eexists. split; [vm_compute; reflexivity|].
  repeat split; try (vm_compute; reflexivity); vm_compute; lia.
Qed.

(** The stripes of the example are the expected ones. *)
Lemma end_to_end_stripes :
  striped_grid "hgrid" 1 (example_frames 1) =
  Ok [replicate 12 (cycle_row 12 (λ v, [v]) [1; 0; 0]%Z);
      replicate 12 (cycle_row 12 (λ v, [v]) [0; 1; 0]%Z);
      replicate 12 (cycle_row 12 (λ v, [v]) [0; 0; 1]%Z)].
Proof. vm_compute. reflexivity. Qed.

(** With an alpha channel behind three colour channels the composite of the
    example reads 10, 20, 30 across the columns. *)
Lemma end_to_end_rgba :
  ∃ g, scanimation "hgrid" 1 (example_frames 4) =
       Ok (g, replicate 12 (cycle_row 12 (λ v, [v; v; v; 255%Z]) [10; 20; 30]%Z)).
Proof. eexists. vm_compute. reflexivity. Qed.

(** C3 (end-to-end example).  On one-channel frames lines 95 and 102 of
    [main] overwrite the only channel: every grid is all ones and the
    composite is 255 everywhere, not the columns 10, 20, 30. *)
Theorem end_to_end_one_channel :
  scanimation "hgrid" 1 (example_frames 1) =
  Ok (replicate 3 (const_image 12 12 1 1%Z), const_image 12 12 1 255%Z).
Proof. vm_compute. reflexivity. Qed.

(** C5 (frame-count validation).  [__call__] compares the length of the stack
    with the global name [num_frames]: in the imported module every call
    raises [NameError], whatever the length; after the script has run, an
    instance configured for 6 frames accepts a stack of 5 frames and refuses
    a stack of 6. *)
Theorem call_checks_global_num_frames :
  (∀ (self : Moire.t) (arr : stack),
      Moire.__call__ Moire.imported_globals self arr = Raise (NameError "num_frames"))
  ∧ ∃ m, Moire.__init__ "hgrid" 1 6 = Ok m
      ∧ Moire._num_frames m = 6%Z
      ∧ Moire.__call__ Moire.script_globals m (replicate 5 (const_image 2 2 1 0%Z)) = Ok ()
      ∧ Moire.__call__ Moire.script_globals m (replicate 6 (const_image 2 2 1 0%Z))
        = Raise ValueError.
Proof.
  split; [done|]. eexists. split; [vm_compute; reflexivity|].
  repeat split; vm_compute; reflexivity.
Qed.

(** C6 (alpha forcing).  On four-channel frames every alpha entry of every
    phase grid is 1 and every alpha entry of the composite is 255, whatever
    the frames contain. *)
Theorem alpha_forcing pattern sw (img : stack) F H W :
  has_shape img F H W 4 → 1 ≤ F →
  ∃ grid res, scanimation pattern sw img = Ok (grid, res)
    ∧ (∀ k r c, k < F → r < H → c < W → lookup4 grid k r c 3 = Some 1%Z)
    ∧ (∀ r c, r < H → c < W → lookup3 res r c 3 = Some 255%Z).
Proof.
  intros Hs HF. do 2 eexists. split; [|split].
  - apply (scanimation_entries _ _ _ _ _ _ _ Hs); lia.
  - intros k r c Hk Hr Hc. rewrite lookup4_tab4 by (done || lia). done.
  - intros r c Hr Hc. rewrite lookup3_tab3 by (done || lia). done.
Qed.

Lemma alpha_forcing_witness :
  ∃ grid res,
    scanimation "hgrid" 1 [[[[1; 2; 3; 0]; [4; 5; 6; 77]]]; [[[7; 8; 9; 0]; [1; 1; 1; 200]]]]%Z
      = Ok (grid, res)
    ∧ (∀ k r c, k < 2 → r < 1 → c < 2 → lookup4 grid k r c 3 = Some 1%Z)
    ∧ (∀ r c, r < 1 → c < 2 → lookup3 res r c 3 = Some 255%Z).
Proof.
  apply (alpha_forcing "hgrid" 1 _ 2 1 2).
  - split; [done|]. repeat (constructor; [repeat constructor|]). constructor.
  - lia.
Defined.

(** * Narrowing *)

Lemma entry_uint8 (img : stack) k r c ch :
  uint8_stack img → (0 ≤ entry img k r c ch ≤ 255)%Z.
Proof.
  intros Hu. unfold entry, lookup4, lookup3.
  destruct (img !! k) as [im|] eqn:Him; simpl; [|lia].
  destruct (im !! r) as [row|] eqn:Hrow; simpl; [|lia].
  destruct (row !! c) as [px|] eqn:Hpx; simpl; [|lia].
  destruct (px !! ch) as [v|] eqn:Hv; simpl; [|lia].
  pose proof (Forall_lookup_1 _ _ _ _ Hu Him) as H1.
  pose proof (Forall_lookup_1 _ _ _ _ H1 Hrow) as H2.
  pose proof (Forall_lookup_1 _ _ _ _ H2 Hpx) as H3.
  exact (Forall_lookup_1 _ _ _ _ H3 Hv).
Qed.

Lemma grid_entry_bit pattern sw F H W C k r c ch :
  (grid_entry pattern sw F H W C k r c ch = 0 ∨
   grid_entry pattern sw F H W C k r c ch = 1)%Z.
Proof. unfold grid_entry, stripe_entry, stripe_bit. repeat case_decide; auto. Qed.

Lemma masked_sum_bounds pattern sw (img : stack) F H W C r c ch :
  uint8_stack img →
  (0 ≤ masked_sum pattern sw img F H W C r c ch ≤ 255 * Z.of_nat F)%Z.
Proof.
  intros Hu. unfold masked_sum.
  pose proof (sum_upto_bounds F
    (λ k, (entry img k r c ch * grid_entry pattern sw F H W C k r c ch)%Z) 0 255) as Hb.
  cbv beta in Hb. rewrite Z.mul_0_r, (Z.mul_comm (Z.of_nat F)) in Hb.
  apply Hb. intros k _.
  pose proof (entry_uint8 img k r c ch Hu).
  destruct (grid_entry_bit pattern sw F H W C k r c ch) as [-> | ->]; lia.
Qed.

(** C7, as stated, fails: the narrowing does not clamp.  Three frames of
    width 4 filled with 200, stripe width 1: phases 0 and 1 overlap in column
    0, the sum there is 400, and the composite holds 144, not 255. *)
Lemma narrowing_counterexample :
  ∃ g res,
    scanimation "hgrid" 1
      [const_image 1 4 2 200%Z; const_image 1 4 2 200%Z; const_image 1 4 2 200%Z]
      = Ok (g, res)
    ∧ lookup3 (sum_axis0 (mul4
        [const_image 1 4 2 200%Z; const_image 1 4 2 200%Z; const_image 1 4 2 200%Z] g))
        0 0 0 = Some 400%Z
    ∧ lookup3 res 0 0 0 = Some 144%Z
    ∧ clip_uint8 400 = 255%Z
    ∧ 144%Z ≠ clip_uint8 400.
Proof. do 2 eexists. repeat split; try (vm_compute; reflexivity). vm_compute. discriminate. Qed.

(** C7 (narrowing), amended.  For [uint8] frames, few enough that
    [255 * frame_count] stays below [2^24], the sum of the masked frames at
    any position lies between 0 and [255 * frame_count], below [2^24], so the
    float32 accumulation is exact; the composite holds 255 in the last
    channel, and elsewhere the sum modulo 256: the sum itself when it is at
    most 255, always a value in [0..255], with no clamping. *)
Theorem narrowing_wraps pattern sw (img : stack) F H W C r c ch :
  has_shape img F H W C → 1 ≤ F → 1 ≤ C → uint8_stack img →
  (255 * Z.of_nat F < 2 ^ 24)%Z →
  r < H → c < W → ch < C →
  ∃ g res s v, scanimation pattern sw img = Ok (g, res)
    ∧ lookup3 (sum_axis0 (mul4 img g)) r c ch = Some s
    ∧ lookup3 res r c ch = Some v
    ∧ (0 ≤ s ≤ 255 * Z.of_nat F)%Z
    ∧ (s < 2 ^ 24)%Z
    ∧ (0 ≤ v ≤ 255)%Z
    ∧ (if decide (ch = C - 1) then v = 255%Z
       else v = (s `mod` 256)%Z ∧ ((s ≤ 255)%Z → v = s)).
Proof.
  intros Hs HF HC Hu Hfew Hr Hc Hch.
  do 4 eexists. split; [|split; [|split; [|split; [|split; [|split]]]]].
  - by apply (scanimation_entries _ _ _ _ _ _ _ Hs).
  - rewrite (has_shape_as_tab4 _ _ _ _ _ Hs) at 1.
    rewrite mul4_tab4, sum_axis0_tab4 by done. by apply lookup3_tab3.
  - by apply lookup3_tab3.
  - by apply masked_sum_bounds.
  - pose proof (masked_sum_bounds pattern sw img F H W C r c ch Hu) as Hb.
    unfold masked_sum, entry in *. lia.
  - unfold astype_uint8.
    match goal with |- (0 ≤ ?x `mod` 256 ≤ 255)%Z =>
      pose proof (Z.mod_pos_bound x 256 ltac:(lia)) end. lia.
  - pose proof (masked_sum_bounds pattern sw img F H W C r c ch Hu) as Hb.
    unfold astype_uint8. case_decide; [done|]. split; [done|].
    unfold masked_sum, entry in *. intros Hle. apply Z.mod_small. lia.
Qed.

Lemma narrowing_wraps_witness :
  ∃ g res s v,
    scanimation "hgrid" 1 [const_image 1 4 2 200%Z; const_image 1 4 2 100%Z] = Ok (g, res)
    ∧ lookup3 (sum_axis0 (mul4 [const_image 1 4 2 200%Z; const_image 1 4 2 100%Z] g))
        0 1 0 = Some s
    ∧ lookup3 res 0 1 0 = Some v
    ∧ (0 ≤ s ≤ 255 * Z.of_nat 2)%Z
    ∧ (s < 2 ^ 24)%Z
    ∧ (0 ≤ v ≤ 255)%Z
    ∧ (if decide (0 = 2 - 1) then v = 255%Z
       else v = (s `mod` 256)%Z ∧ ((s ≤ 255)%Z → v = s)).
Proof.
  apply (narrowing_wraps "hgrid" 1 _ 2 1 4 2 0 1 0).
  - split; [done|]. repeat (constructor; [repeat constructor|]). constructor.
  - lia.
  - lia.
  - unfold uint8_stack. apply (bool_decide_unpack _). vm_compute. exact I.
  - reflexivity.
  - lia.
  - lia.
  - lia.
Defined.

(** * Sizes *)

(** C8, as stated, fails on [Moire.make_grid]: the default instance for six
    frames holds a 144 by 144 grid, whatever the frames; here they are 12 by
    12. *)
Lemma grid_sizing_counterexample :
  ¬ (∀ pattern sw nf m (img : stack) F H W C,
       Moire.__init__ pattern sw nf = Ok m → has_shape img F H W C →
       length (Moire.grid m) = H ∧ Forall (λ row, length row = W) (Moire.grid m)).
Proof.
  intros Hall.
  destruct (init_square "hgrid" 1 6 ltac:(lia) ltac:(lia)) as (m & Hm & Hlen & _).
  destruct (Hall "hgrid" 1%Z 6%Z m (tab4 6 12 12 4 (λ _ _ _ _, 0%Z)) 6 12 12 4 Hm
              (has_shape_tab4 _ _ _ _ _)) as [Hbad _].
  rewrite Hlen in Hbad. vm_compute in Hbad. discriminate.
Qed.

(** C8 (grid sizing), amended.  The grid of [main] is allocated with
    [np.zeros_like(img)] and keeps the shape of the frame stack, frames,
    height, width and channels, through the striping, the rolls and the
    assignment of the last channel; the grid of [Moire.make_grid] is a square
    of side [stripe_width * num_frames * replications], [replications] being
    24 after construction, sized without reference to any frame. *)
Theorem grid_sizing pattern sw (img : stack) F H W C mpattern msw mnf :
  has_shape img F H W C → 1 ≤ F → 1 ≤ C → (0 < msw)%Z → (0 < mnf)%Z →
  (∃ g0 g, striped_grid pattern sw img = Ok g0 ∧ has_shape g0 F H W C
           ∧ build_grid pattern sw img = Ok g ∧ has_shape g F H W C)
  ∧ (∃ m, Moire.__init__ mpattern msw mnf = Ok m
          ∧ length (Moire.grid m) = Z.to_nat (msw * mnf * 24)
          ∧ Forall (λ row, length row = Z.to_nat (msw * mnf * 24)) (Moire.grid m)).
Proof.
  intros Hs HF HC Hsw Hnf. split.
  - do 2 eexists. split; [|split; [|split]].
    + apply (striped_grid_entries _ _ _ _ _ _ _ Hs). by left.
    + apply has_shape_tab4.
    + apply (build_grid_entries _ _ _ _ _ _ _ Hs); auto.
    + apply has_shape_tab4.
  - destruct (init_square mpattern msw mnf Hsw Hnf) as (m & Hm & Hlen & Hrows & _).
    eauto.
Qed.

Lemma grid_sizing_witness :
  (∃ g0 g,
      striped_grid "vgrid" 1 [const_image 2 3 4 9%Z] = Ok g0 ∧ has_shape g0 1 2 3 4
      ∧ build_grid "vgrid" 1 [const_image 2 3 4 9%Z] = Ok g ∧ has_shape g 1 2 3 4)
  ∧ (∃ m, Moire.__init__ "hgrid" 1 6 = Ok m
          ∧ length (Moire.grid m) = Z.to_nat (1 * 6 * 24)
          ∧ Forall (λ row, length row = Z.to_nat (1 * 6 * 24)) (Moire.grid m)).
Proof.
  apply (grid_sizing "vgrid" 1 _ 1 2 3 4 "hgrid" 1 6).
  - split; [done|]. repeat (constructor; [repeat constructor|]). constructor.
  - lia.
  - lia.
  - lia.
  - lia.
Defined.

(** * The [replications] setter *)

Lemma set_replications_grid vals (self : Moire.t) :
  Moire.grid (foldl Moire.run self (Moire.SetReplications <$> vals)) = Moire.grid self.
Proof.
  revert self. induction vals as [|v vals IH]; intros self; [done|].
  rewrite fmap_cons. cbn [foldl]. by rewrite IH.
Qed.

(** C10 (stale grid).  Assigning [replications] stores the value and leaves
    every other attribute, the grid among them, as it was: after any number
    of assignments the grid is the one the last [make_grid] call produced.
    For an instance built with positive [stripe_width] and [num_frames] the
    side of the grid stays [stripe_width * num_frames * 24] and differs from
    [stripe_width * num_frames * replications] as soon as the assigned value
    is not 24. *)
Theorem replications_setter_keeps_grid (self : Moire.t) (val : Z) (vals : list Z) :
  Moire.set_replications val self =
    Moire.Build (Moire._pattern self) (Moire._stripe_width self)
      (Moire._num_frames self) val (Moire.grid self)
  ∧ Moire.replications (Moire.set_replications val self) = val
  ∧ Moire.grid (foldl Moire.run (Moire.run self Moire.MakeGrid)
                  (Moire.SetReplications <$> vals))
    = Moire.grid (Moire.make_grid self).1
  ∧ (∀ pattern sw nf, (0 < sw)%Z → (0 < nf)%Z →
       ∃ m, Moire.__init__ pattern sw nf = Ok m
         ∧ Z.of_nat (length (Moire.grid (Moire.set_replications val m)))
           = (sw * nf * 24)%Z
         ∧ (val ≠ 24%Z →
            Z.of_nat (length (Moire.grid (Moire.set_replications val m)))
            ≠ (Moire._stripe_width (Moire.set_replications val m)
               * Moire._num_frames (Moire.set_replications val m)
               * Moire.replications (Moire.set_replications val m))%Z)).
Proof.
  split; [done|]. split; [done|]. split; [apply set_replications_grid|].
  intros pattern sw nf Hsw Hnf.
  destruct (init_square pattern sw nf Hsw Hnf) as (m & Hm & Hlen & _ & Esw & Enf & _).
  exists m. split; [done|]. simpl. rewrite Hlen, Esw, Enf.
  split; [nia|]. intros Hval. unfold Moire.replications; simpl. nia.
Qed.

Lemma replications_setter_keeps_grid_witness :
  ∃ m, Moire.__init__ "hgrid" 1 6 = Ok m
    ∧ Z.of_nat (length (Moire.grid (Moire.set_replications 64 m))) = (1 * 6 * 24)%Z
    ∧ Z.of_nat (length (Moire.grid (Moire.set_replications 64 m)))
      ≠ (Moire._stripe_width (Moire.set_replications 64 m)
         * Moire._num_frames (Moire.set_replications 64 m)
         * Moire.replications (Moire.set_replications 64 m))%Z.
Proof.
  destruct (replications_setter_keeps_grid
              (Moire.Build "hgrid" 1 6 24 []) 64 []) as (_ & _ & _ & Hstale).
  destruct (Hstale "hgrid" 1%Z 6%Z ltac:(lia) ltac:(lia)) as (m & Hm & Hside & Hne).
  exists m. split; [done|]. split; [done|]. apply Hne. lia.
Defined.


(** * Further properties of the pipeline of [main] *)

Lemma lookup4_entry (img : stack) F H W C k r c ch :
  has_shape img F H W C → k < F → r < H → c < W → ch < C →
  lookup4 img k r c ch = Some (entry img k r c ch).
Proof.
  intros Hs Hk Hr Hc Hch. unfold entry.
  rewrite (has_shape_as_tab4 _ _ _ _ _ Hs) at 1 2.
  by rewrite lookup4_tab4.
Qed.

Lemma sum_upto_const n (v : Z) : sum_upto n (λ _, v) = (Z.of_nat n * v)%Z.
Proof.
  pose proof (sum_upto_bounds n (λ _, v) v v) as Hb. cbv beta in Hb.
  specialize (Hb ltac:(intros; lia)). lia.
Qed.

Lemma sum_upto_pick n q (f : nat → Z) :
  q < n →
  sum_upto n (λ k, (f k * (if decide (k = q) then 1 else 0))%Z) = f q.
Proof.
  induction n as [|n IH]; [lia|]. intros Hq. rewrite sum_upto_S.
  destruct (decide (q = n)) as [->|Hne].
  - rewrite decide_True by done.
    rewrite (sum_upto_ext n _ (λ _, 0%Z))
      by (intros k Hk; rewrite decide_False by lia; lia).
    rewrite sum_upto_const. lia.
  - rewrite IH by lia. rewrite decide_False by lia. lia.
Qed.

Lemma tabulate_last C (a b : Z) :
  1 ≤ C →
  tabulate C (λ ch, if decide (ch = C - 1) then a else b) = replicate (C - 1) b ++ [a].
Proof.
  intros HC. symmetry. apply tabulate_eq_of_lookup.
  - rewrite length_app, length_replicate. simpl. lia.
  - intros ch Hch. case_decide as Hlast.
    + subst ch. rewrite lookup_app_r by (rewrite length_replicate; lia).
      rewrite length_replicate, Nat.sub_diag. done.
    + rewrite lookup_app_l by (rewrite length_replicate; lia).
      apply lookup_replicate_2. lia.
Qed.

Lemma tab3_last H W C (a b : Z) :
  1 ≤ C →
  tab3 H W C (λ _ _ ch, if decide (ch = C - 1) then a else b) =
  replicate H (replicate W (replicate (C - 1) b ++ [a])).
Proof.
  intros HC. unfold tab3. rewrite tabulate_last by done.
  by rewrite <-!replicate_as_tabulate.
Qed.

Lemma roll_src_0 n x : x < n → roll_src n 0 x = x.
Proof.
  intros Hx. unfold roll_src. rewrite Nat.Div0.mod_0_l, Nat.sub_0_r.
  replace (x + n) with (x + 1 * n) by lia.
  rewrite Nat.Div0.mod_add. by apply Nat.mod_small.
Qed.

Lemma roll_src_roll_src n a b x :
  x < n → roll_src n a (roll_src n b x) = roll_src n (a + b) x.
Proof.
  intros Hx. apply Nat2Z.inj. rewrite !roll_src_Z by lia.
  rewrite Nat2Z.inj_add, Zminus_mod_idemp_l. f_equal. lia.
Qed.

(** X2.  Composite recoverability.  When the period divides the striping axis,
    every colour entry of the composite is the entry of exactly one frame, the
    frame [(x mod period) / stripewidth] for striping coordinate [x]. *)
Theorem composite_shows_one_frame pattern sw (img : stack) F H W C r c ch :
  has_shape img F H W C → uint8_stack img → 1 ≤ sw →
  pattern = "hgrid" ∨ pattern = "vgrid" →
  (F * sw | striping_length pattern H W) →
  r < H → c < W → ch < C - 1 →
  ∃ g res, scanimation pattern sw img = Ok (g, res)
    ∧ (striping_coord pattern r c mod (F * sw)) / sw < F
    ∧ lookup3 res r c ch
      = lookup4 img ((striping_coord pattern r c mod (F * sw)) / sw) r c ch.
Proof.
  intros Hs Hu Hsw Hp Hdiv Hr Hc Hch.
  pose proof (striping_coord_lt pattern H W r c Hr Hc) as Hx.
  assert (1 ≤ F) as HF.
  { destruct F; [|lia]. destruct Hdiv as [t Ht]. lia. }
  pose proof (phase_of_coord_lt sw F (striping_coord pattern r c) ltac:(lia) ltac:(lia)) as Hq.
  do 2 eexists. split; [|split; [done|]].
  - apply (scanimation_entries _ _ _ _ _ _ _ Hs); lia.
  - rewrite lookup3_tab3 by (done || lia).
    rewrite (lookup4_entry _ _ _ _ _ _ _ _ _ Hs) by (done || lia). f_equal.
    rewrite decide_False by lia. unfold masked_sum.
    rewrite (sum_upto_ext F _ (λ k, (entry img k r c ch *
      (if decide (k = ((striping_coord pattern r c mod (F * sw)) / sw)%nat)
       then 1 else 0))%Z)).
    + rewrite sum_upto_pick by done. unfold astype_uint8.
      pose proof (entry_uint8 img
        ((striping_coord pattern r c mod (F * sw)) / sw) r c ch Hu).
      apply Z.mod_small. lia.
    + intros k Hk. f_equal. unfold grid_entry, stripe_entry.
      rewrite decide_False by lia. rewrite decide_True by done.
      by apply stripe_bit_phase.
Qed.

Lemma composite_shows_one_frame_witness :
  ∃ g res,
    scanimation "hgrid" 1 [const_image 1 2 2 10%Z; const_image 1 2 2 20%Z] = Ok (g, res)
    ∧ (striping_coord "hgrid" 0 1 mod (2 * 1)) / 1 < 2
    ∧ lookup3 res 0 1 0
      = lookup4 [const_image 1 2 2 10%Z; const_image 1 2 2 20%Z]
          ((striping_coord "hgrid" 0 1 mod (2 * 1)) / 1) 0 1 0.
Proof.
  apply (composite_shows_one_frame "hgrid" 1 _ 2 1 2 2 0 1 0).
  - split; [done|]. repeat (constructor; [repeat constructor|]). constructor.
  - unfold uint8_stack. apply (bool_decide_unpack _). vm_compute. exact I.
  - lia.
  - by left.
  - exists 1. reflexivity.
  - lia.
  - lia.
  - simpl. lia.
Defined.

(** X3.  After line 95 the grids of the phases add up to one in every channel but
    the last, and to the number of frames in the last channel, when the
    period divides the striping axis. *)
Theorem final_grids_sum pattern sw (img : stack) F H W C :
  has_shape img F H W C → 1 ≤ F → 1 ≤ C → 1 ≤ sw →
  pattern = "hgrid" ∨ pattern = "vgrid" →
  (F * sw | striping_length pattern H W) →
  ∃ g, build_grid pattern sw img = Ok g
    ∧ sum_axis0 g = replicate H (replicate W (replicate (C - 1) 1%Z ++ [Z.of_nat F])).
Proof.
  intros Hs HF HC Hsw Hp Hdiv. eexists. split.
  - apply (build_grid_entries _ _ _ _ _ _ _ Hs); auto.
  - rewrite sum_axis0_tab4 by done. rewrite <-tab3_last by done.
    apply tab3_ext; intros r c ch Hr Hc Hch. unfold grid_entry.
    case_decide.
    + rewrite sum_upto_const. lia.
    + unfold stripe_entry.
      rewrite (sum_upto_ext _ _ (λ k, stripe_bit sw (F * sw)
        (roll_src (striping_length pattern H W) (k * sw) (striping_coord pattern r c))))
        by (intros; by rewrite decide_True).
      apply sum_upto_stripe_bit; [lia..| |done]. by apply striping_coord_lt.
Qed.

Lemma final_grids_sum_witness :
  ∃ g, build_grid "vgrid" 1 [const_image 2 1 3 7%Z; const_image 2 1 3 9%Z] = Ok g
    ∧ sum_axis0 g = replicate 2 (replicate 1 (replicate (3 - 1) 1%Z ++ [Z.of_nat 2])).
Proof.
  apply (final_grids_sum "vgrid" 1 _ 2 2 1 3).
  - split; [done|]. repeat (constructor; [repeat constructor|]). constructor.
  - lia.
  - lia.
  - lia.
  - by right.
  - exists 1. reflexivity.
Defined.

(** X4.  With a stripe width of zero, or a pattern other than ["hgrid"] and
    ["vgrid"], no stripe is drawn and nothing is refused: the grids are zero
    outside the last channel and the composite is black and opaque. *)
Theorem no_stripes_black pattern sw (img : stack) F H W C :
  has_shape img F H W C → 1 ≤ F → 1 ≤ C →
  sw = 0 ∨ (pattern ≠ "hgrid" ∧ pattern ≠ "vgrid") →
  scanimation pattern sw img =
  Ok (replicate F (replicate H (replicate W (replicate (C - 1) 0%Z ++ [1%Z]))),
      replicate H (replicate W (replicate (C - 1) 0%Z ++ [255%Z]))).
Proof.
  intros Hs HF HC Hno.
  rewrite (scanimation_entries _ _ _ _ _ _ _ Hs) by done.
  assert (∀ k r c, stripe_entry pattern sw F H W k r c = 0%Z) as Hzero.
  { intros k r c. unfold stripe_entry, stripe_bit. destruct Hno as [->|[??]].
    - repeat case_decide; try done. lia.
    - rewrite decide_False; [done|]. by intros [?|?]. }
  do 2 f_equal.
  - rewrite <-tab3_last by done. rewrite replicate_as_tabulate.
    apply tabulate_ext; intros k _. apply tab3_ext; intros r c ch _ _ _.
    unfold grid_entry. by rewrite Hzero.
  - rewrite <-tab3_last by done. apply tab3_ext; intros r c ch _ _ _.
    case_decide; [done|]. unfold masked_sum, grid_entry.
    rewrite (sum_upto_ext F _ (λ _, 0%Z))
      by (intros; rewrite decide_False by done; rewrite Hzero; lia).
    rewrite sum_upto_const. by rewrite Z.mul_0_r.
Qed.

Lemma no_stripes_black_witness :
  scanimation "radial" 3 [const_image 1 2 2 10%Z; const_image 1 2 2 20%Z] =
  Ok (replicate 2 (replicate 1 (replicate 2 (replicate (2 - 1) 0%Z ++ [1%Z]))),
      replicate 1 (replicate 2 (replicate (2 - 1) 0%Z ++ [255%Z]))).
Proof.
  apply (no_stripes_black "radial" 3 _ 2 1 2 2).
  - split; [done|]. repeat (constructor; [repeat constructor|]). constructor.
  - lia.
  - lia.
  - right. split; discriminate.
Defined.

Lemma stripe_rule_main_witness :
  ∃ g v,
    striped_grid "hgrid" 2 [const_image 1 8 1 0%Z; const_image 1 8 1 0%Z] = Ok g
    ∧ lookup4 g 1 0 3 0 = Some v
    ∧ (v = 0 ∨ v = 1)%Z
    ∧ (v = 1%Z ↔
       (((Z.of_nat (striping_coord "hgrid" 0 3) - Z.of_nat 1 * Z.of_nat 2)
           `mod` Z.of_nat (striping_length "hgrid" 1 8))
          `mod` (Z.of_nat 2 * Z.of_nat 2) < Z.of_nat 2)%Z).
Proof.
  apply (stripe_rule_main "hgrid" 2 _ 2 1 8 1 1 0 3 0).
  - split; [done|]. repeat (constructor; [repeat constructor|]). constructor.
  - lia.
  - by left.
  - lia.
  - lia.
  - lia.
  - lia.
Defined.

Lemma map2_set_last_tab3 v H W C g :
  map2 (set_last v) (tab3 H W C g) =
  tab3 H W C (λ r c ch, if decide (ch = C - 1) then v else g r c ch).
Proof.
  unfold map2, tab3. rewrite fmap_tabulate. apply tabulate_ext; intros r _.
  rewrite fmap_tabulate. apply tabulate_ext; intros c _. apply set_last_tabulate.
Qed.

(** X5.  A stack of one frame has a period of one stripe: every pixel is visible,
    and the composite is the frame itself with its last channel set to 255. *)
Theorem single_frame_unchanged pattern sw (im : image) H W C :
  has_shape3 H W C im → uint8_stack [im] → 1 ≤ sw → 1 ≤ C →
  pattern = "hgrid" ∨ pattern = "vgrid" →
  scanimation pattern sw [im] =
  Ok ([const_image H W C 1%Z], map2 (set_last 255%Z) im).
Proof.
  intros Hs3 Hu Hsw HC Hp.
  assert (has_shape [im] 1 H W C) as Hs by (split; [done|by constructor]).
  rewrite (scanimation_entries _ _ _ _ _ _ _ Hs) by done.
  assert (∀ r c ch, r < H → c < W →
            grid_entry pattern sw 1 H W C 0 r c ch = 1%Z) as Hone.
  { intros r c ch Hr Hc. unfold grid_entry, stripe_entry, stripe_bit.
    case_decide; [done|]. rewrite decide_True by done. rewrite Nat.mul_1_l.
    rewrite decide_True; [done|]. apply Nat.mod_upper_bound. lia. }
  do 2 f_equal.
  - unfold tab4, tabulate. cbn [seq fmap list_fmap]. f_equal.
    rewrite const_image_as_tab3. apply tab3_ext; intros. by apply Hone.
  - replace (map2 (set_last 255%Z) im) with
      (map2 (set_last 255%Z) (tab3 H W C (λ r c ch, default 0%Z (lookup3 im r c ch))))
      by (by rewrite <-has_shape3_as_tab3).
    rewrite map2_set_last_tab3.
    apply tab3_ext; intros r c ch Hr Hc Hch. unfold astype_uint8.
    case_decide; [done|]. unfold masked_sum.
    rewrite sum_upto_S. unfold sum_upto at 1. cbn [seq fmap list_fmap sumZ foldr].
    rewrite Hone by done.
    pose proof (entry_uint8 [im] 0 r c ch Hu) as Hb.
    unfold entry, lookup4 in *. cbn in *.
    rewrite Z.mod_small by lia. lia.
Qed.

Lemma single_frame_unchanged_witness :
  scanimation "vgrid" 3 [[[[1; 2; 3; 4]; [5; 6; 7; 8]]]]%Z =
  Ok ([const_image 1 2 4 1%Z], map2 (set_last 255%Z) [[[1; 2; 3; 4]; [5; 6; 7; 8]]]%Z).
Proof.
  apply (single_frame_unchanged "vgrid" 3 _ 1 2 4).
  - unfold has_shape3. apply (bool_decide_unpack _). vm_compute. exact I.
  - unfold uint8_stack. apply (bool_decide_unpack _). vm_compute. exact I.
  - lia.
  - lia.
  - by right.
Defined.

(** X7.  Frames without a channel axis entry are refused at line 95: index [-1]
    is out of bounds on an axis of length zero. *)
Theorem no_channel_raises pattern sw (img : stack) F H W :
  has_shape img F H W 0 → 1 ≤ F → 1 ≤ H → 1 ≤ W →
  scanimation pattern sw img = Raise IndexError.
Proof.
  intros Hs HF HH HW. unfold scanimation, build_grid.
  rewrite (striped_grid_entries _ _ _ _ _ _ _ Hs) by auto. cbn.
  unfold set_last4.
  replace (existsb no_channel _) with true; [done|]. symmetry.
  apply existsb_exists. eexists. split.
  - apply list_elem_of_In, list_elem_of_lookup. exists 0.
    apply lookup_tab4_frame. lia.
  - unfold no_channel. apply existsb_exists. eexists. split.
    + apply list_elem_of_In, list_elem_of_lookup. exists 0.
      unfold tab3. apply lookup_tabulate. lia.
    + apply existsb_exists. eexists. split.
      * apply list_elem_of_In, list_elem_of_lookup. exists 0.
        apply lookup_tabulate. lia.
      * done.
Qed.

Lemma no_channel_raises_witness :
  scanimation "hgrid" 1 [[[[]; []]]; [[[]; []]]] = Raise IndexError.
Proof.
  apply (no_channel_raises "hgrid" 1 _ 2 1 2).
  - split; [done|]. repeat (constructor; [repeat constructor|]). constructor.
  - lia.
  - lia.
  - lia.
Defined.

(** X8.  The exported pattern ([(255*grid[0]).astype(np.uint8)]) has the shape of
    a frame and holds 255 in the last channel and wherever phase 0 is visible
    (striping coordinate below [stripewidth] modulo the period), 0 elsewhere. *)
Theorem pattern_image_entries pattern sw (img : stack) F H W C :
  has_shape img F H W C → 1 ≤ F → 1 ≤ C → 1 ≤ sw →
  pattern = "hgrid" ∨ pattern = "vgrid" →
  ∃ g p, build_grid pattern sw img = Ok g ∧ pattern_image g = Ok p
    ∧ has_shape3 H W C p
    ∧ ∀ r c ch, r < H → c < W → ch < C →
        lookup3 p r c ch =
        Some (if decide (ch = C - 1 ∨ striping_coord pattern r c mod (F * sw) < sw)
              then 255%Z else 0%Z).
Proof.
  intros Hs HF HC Hsw Hp. destruct F as [|F]; [lia|].
  eexists. exists (tab3 H W C (λ r c ch,
    astype_uint8 (255 * grid_entry pattern sw (S F) H W C 0 r c ch)%Z)).
  split; [|split; [|split]].
  - apply (build_grid_entries _ _ _ _ _ _ _ Hs); auto.
  - unfold tab4, tabulate. cbn [seq fmap list_fmap pattern_image].
    by rewrite map3_tab3.
  - apply has_shape3_tab3.
  - intros r c ch Hr Hc Hch. rewrite lookup3_tab3 by done. f_equal.
    pose proof (striping_coord_lt pattern H W r c Hr Hc) as Hx.
    unfold grid_entry, stripe_entry, stripe_bit.
    rewrite (decide_True (P := pattern = "hgrid" ∨ pattern = "vgrid")) by done.
    rewrite Nat.mul_0_l, roll_src_0 by done.
    repeat case_decide; try done; tauto.
Qed.

Lemma pattern_image_entries_witness :
  ∃ g p,
    build_grid "hgrid" 1 [const_image 1 4 2 0%Z; const_image 1 4 2 0%Z] = Ok g
    ∧ pattern_image g = Ok p
    ∧ has_shape3 1 4 2 p
    ∧ ∀ r c ch, r < 1 → c < 4 → ch < 2 →
        lookup3 p r c ch =
        Some (if decide (ch = 2 - 1 ∨ striping_coord "hgrid" r c mod (2 * 1) < 1)
              then 255%Z else 0%Z).
Proof.
  apply (pattern_image_entries "hgrid" 1 _ 2 1 4 2).
  - split; [done|]. repeat (constructor; [repeat constructor|]). constructor.
  - lia.
  - lia.
  - lia.
  - by left.
Defined.

Lemma stripe_bit_full_period sw P L x :
  (P | L) → x < L → stripe_bit sw P (roll_src L P x) = stripe_bit sw P x.
Proof.
  intros [t ->] Hx. unfold stripe_bit.
  replace (roll_src (t * P) P x mod P) with (x mod P); [done|].
  unfold roll_src. rewrite mod_mod_multiple.
  destruct t as [|[|t]].
  - simpl in Hx. lia.
  - rewrite Nat.mul_1_l, Nat.Div0.mod_same, Nat.sub_0_r.
    replace (x + P) with (x + 1 * P) by lia. by rewrite Nat.Div0.mod_add.
  - rewrite (Nat.mod_small P) by nia.
    replace (x + S (S t) * P - P) with (x + S t * P) by lia.
    by rewrite Nat.Div0.mod_add.
Qed.

Lemma grid_entry_roll pattern sw F H W C k s r c ch :
  r < H → c < W →
  (if decide (pattern = "hgrid")
   then grid_entry pattern sw F H W C k r (roll_src W s c) ch
   else grid_entry pattern sw F H W C k (roll_src H s r) c ch) =
  if decide (ch = C - 1) then 1%Z
  else if decide (pattern = "hgrid" ∨ pattern = "vgrid") then
    stripe_bit sw (F * sw)
      (roll_src (striping_length pattern H W) (k * sw + s) (striping_coord pattern r c))
  else 0%Z.
Proof.
  intros Hr Hc. unfold grid_entry, stripe_entry, striping_length, striping_coord.
  destruct (decide (pattern = "hgrid")); repeat case_decide; try done.
  all: by rewrite roll_src_roll_src.
Qed.

Lemma roll_along_tab3 pattern s H W C g :
  roll_along pattern s (tab3 H W C g) =
  tab3 H W C (λ r c ch, if decide (pattern = "hgrid") then g r (roll_src W s c) ch
                        else g (roll_src H s r) c ch).
Proof.
  unfold roll_along. case_decide.
  - apply roll_axis1_tab3.
  - apply roll_axis0_tab3.
Qed.

(** X9.  Sliding the mask by one stripe width selects the next frame: in the
    grids that [main] builds, the grid of phase [k+1] is the grid of phase
    [k] rolled by [stripewidth] along the striping axis. *)
Theorem next_phase_is_roll pattern sw (img : stack) F H W C k :
  has_shape img F H W C → 1 ≤ C → S k < F →
  ∃ g gk gk1, build_grid pattern sw img = Ok g
    ∧ g !! k = Some gk ∧ g !! S k = Some gk1
    ∧ roll_along pattern sw gk = gk1.
Proof.
  intros Hs HC Hk. do 3 eexists. split; [|split; [|split]].
  - apply (build_grid_entries _ _ _ _ _ _ _ Hs); [left; lia|done].
  - apply lookup_tab4_frame. lia.
  - by apply lookup_tab4_frame.
  - rewrite roll_along_tab3. apply tab3_ext; intros r c ch Hr Hc _.
    rewrite grid_entry_roll by done.
    unfold grid_entry, stripe_entry.
    replace (k * sw + sw) with (S k * sw) by lia. done.
Qed.

Lemma next_phase_is_roll_witness :
  ∃ g gk gk1,
    build_grid "hgrid" 1
      [const_image 1 5 2 0%Z; const_image 1 5 2 0%Z; const_image 1 5 2 0%Z] = Ok g
    ∧ g !! 1 = Some gk ∧ g !! 2 = Some gk1
    ∧ roll_along "hgrid" 1 gk = gk1.
Proof.
  apply (next_phase_is_roll "hgrid" 1 _ 3 1 5 2 1).
  - split; [done|]. repeat (constructor; [repeat constructor|]). constructor.
  - lia.
  - lia.
Defined.

(** X10.  The animation loops: when the period divides the striping axis, rolling
    the grid of the last phase by one more stripe width gives back the grid
    of phase 0. *)
Theorem last_phase_rolls_to_first pattern sw (img : stack) F H W C :
  has_shape img F H W C → 1 ≤ F → 1 ≤ C →
  pattern = "hgrid" ∨ pattern = "vgrid" →
  (F * sw | striping_length pattern H W) →
  ∃ g g0 glast, build_grid pattern sw img = Ok g
    ∧ g !! 0 = Some g0 ∧ g !! (F - 1) = Some glast
    ∧ roll_along pattern sw glast = g0.
Proof.
  intros Hs HF HC Hp Hdiv. do 3 eexists. split; [|split; [|split]].
  - apply (build_grid_entries _ _ _ _ _ _ _ Hs); [left; lia|done].
  - apply lookup_tab4_frame. lia.
  - apply lookup_tab4_frame. lia.
  - rewrite roll_along_tab3. apply tab3_ext; intros r c ch Hr Hc _.
    rewrite grid_entry_roll by done.
    pose proof (striping_coord_lt pattern H W r c Hr Hc) as Hx.
    unfold grid_entry, stripe_entry.
    replace ((F - 1) * sw + sw) with (F * sw) by nia.
    rewrite stripe_bit_full_period by done.
    by rewrite Nat.mul_0_l, roll_src_0.
Qed.

Lemma last_phase_rolls_to_first_witness :
  ∃ g g0 glast,
    build_grid "vgrid" 2 [const_image 4 1 2 0%Z; const_image 4 1 2 0%Z] = Ok g
    ∧ g !! 0 = Some g0 ∧ g !! (2 - 1) = Some glast
    ∧ roll_along "vgrid" 2 glast = g0.
Proof.
  apply (last_phase_rolls_to_first "vgrid" 2 _ 2 4 1 2).
  - split; [done|]. repeat (constructor; [repeat constructor|]). constructor.
  - lia.
  - lia.
  - by right.
  - exists 1. reflexivity.
Defined.

(** * The scripts of [moire.py] *)

Lemma foldl_ext_all {A B} (f g : A → B → A) (a : A) (l : list B) :
  (∀ x y, f x y = g x y) → foldl f a l = foldl g a l.
Proof.
  intros E. revert a. induction l as [|y l IH]; intros a; [done|].
  cbn [foldl]. by rewrite E, IH.
Qed.

Lemma script_grid_main sw (img : stack) F H W C :
  has_shape img F H W C → 1 ≤ C →
  script_grid sw img = build_grid "hgrid" sw img.
Proof.
  intros Hs HC. destruct (decide (1 ≤ F ∨ sw = 0)) as [HF|HF].
  - rewrite (build_grid_entries _ _ _ _ _ _ _ Hs HF HC).
    unfold script_grid. rewrite (zeros_like_shape _ _ _ _ _ Hs).
    destruct Hs as [-> _].
    assert (0 < F * sw ∨ sw = 0) as Hstep
      by (destruct HF as [HF| ->]; [destruct sw; [by right|left; nia]|by right]).
    assert (sw ≤ F * sw) as Hle by (destruct HF as [HF| ->]; [nia|lia]).
    rewrite stripe_loop_ok, set_cols_loop by done. cbn.
    rewrite set_last4_tab4 by done. cbn. f_equal.
    unfold tab4. rewrite roll_loop_tabulate
      by (intros; unfold roll_axis1; rewrite <-(list_fmap_id im) at 2;
          apply list_fmap_ext; intros; apply roll_0).
    apply tabulate_ext; intros k _. rewrite roll_axis1_tab3.
    apply tab3_ext; intros. unfold grid_entry, stripe_entry.
    by rewrite (decide_True (P := "hgrid" = "hgrid" ∨ "hgrid" = "vgrid")) by auto.
  - destruct Hs as [Hl _]. destruct img; [|simpl in *; lia].
    unfold script_grid, build_grid.
    rewrite striped_grid_no_frame by (auto || lia).
    by rewrite stripe_loop_raise by (simpl; lia).
Qed.

Lemma script_scanimation_main sw (img : stack) F H W C :
  has_shape img F H W C → 1 ≤ C →
  script_scanimation sw img = scanimation "hgrid" sw img.
Proof.
  intros Hs HC. unfold script_scanimation, scanimation.
  by rewrite (script_grid_main _ _ _ _ _ _ Hs HC).
Qed.

(** X11.  The script of [scanimate/moire.py] sets the last channel before the
    rolls, [main] after them: on frames with at least one channel both give
    the same grids and the same composite, errors included. *)
Theorem script_matches_main sw (img : stack) F H W C :
  has_shape img F H W C → 1 ≤ C →
  script_scanimation sw img = scanimation "hgrid" sw img.
Proof. apply script_scanimation_main. Qed.

Lemma script_matches_main_witness :
  script_scanimation 2 [const_image 1 4 2 9%Z; const_image 1 4 2 8%Z]
  = scanimation "hgrid" 2 [const_image 1 4 2 9%Z; const_image 1 4 2 8%Z].
Proof.
  apply (script_matches_main 2 _ 2 1 4 2).
  - split; [done|]. repeat (constructor; [repeat constructor|]). constructor.
  - lia.
Defined.

(** X12.  The script of [core/moire.py], with its single strided assignment and
    rolls by [i], computes what [main] computes for ["hgrid"] with a stripe
    width of 1. *)
Theorem core_script_matches_main (img : stack) F H W C :
  has_shape img F H W C → 1 ≤ C →
  core_script_scanimation img = scanimation "hgrid" 1 img.
Proof.
  intros Hs HC. rewrite <-(script_scanimation_main 1 img F H W C Hs HC).
  unfold core_script_scanimation, script_scanimation. f_equal.
  unfold core_script_grid, script_grid, stripe_loop, roll_loop. cbn [seq foldl].
  rewrite Nat.mul_1_r. cbn.
  destruct (decide (length img = 0)); [done|]. cbn.
  destruct (set_last4 1 _) as [g|e]; [|done]. cbn. f_equal.
  apply foldl_ext_all. intros acc i. by rewrite Nat.mul_1_r.
Qed.

Lemma core_script_matches_main_witness :
  core_script_scanimation [const_image 1 4 2 9%Z; const_image 1 4 2 8%Z]
  = scanimation "hgrid" 1 [const_image 1 4 2 9%Z; const_image 1 4 2 8%Z].
Proof.
  apply (core_script_matches_main _ 2 1 4 2).
  - split; [done|]. repeat (constructor; [repeat constructor|]). constructor.
  - lia.
Defined.

(** * Subsampling *)

Lemma omap_lookup_in_range {A} (img : list A) (idxs : list nat) :
  Forall (λ i, i < length img) idxs →
  length (omap (M:=list) (λ i, img !! i) idxs) = length idxs
  ∧ ∀ j i, idxs !! j = Some i → omap (M:=list) (λ i, img !! i) idxs !! j = img !! i.
Proof.
  induction idxs as [|i idxs IH]; intros Hall; [done|].
  apply Forall_cons in Hall as [Hi Hall]. destruct (IH Hall) as [IHl IHx].
  destruct (lookup_lt_is_Some_2 img i Hi) as [x Hx].
  cbn. rewrite Hx. cbn. split; [by rewrite IHl|].
  intros [|j] i' Hj; cbn in *.
  - by inversion Hj; subst.
  - by apply IHx.
Qed.

Lemma slice_indices_0_spec step n :
  0 < step →
  length (slice_indices 0 step n) = (n + step - 1) / step
  ∧ Forall (λ i, i < n) (slice_indices 0 step n)
  ∧ ∀ j, j < (n + step - 1) / step → slice_indices 0 step n !! j = Some (j * step).
Proof.
  intros Hstep. unfold slice_indices.
  assert ((if decide (0 < n) then (n - 0 - 1) / step + 1 else 0)
          = (n + step - 1) / step) as ->.
  { case_decide.
    - replace (n + step - 1) with (n - 0 - 1 + 1 * step) by lia.
      by rewrite Nat.div_add by lia.
    - replace n with 0 by lia. rewrite Nat.div_small; lia. }
  split; [by rewrite length_fmap, length_seq|]. split.
  - apply Forall_forall. intros i (j & -> & Hj)%list_elem_of_fmap.
    apply elem_of_seq in Hj. simpl.
    assert (j ≤ (n + step - 1) / step - 1) as Hj' by lia.
    assert (step * ((n + step - 1) / step) ≤ n + step - 1)
      by (apply Nat.Div0.mul_div_le).
    nia.
  - intros j Hj. by rewrite list_lookup_fmap, lookup_seq_lt.
Qed.

Lemma subsample_frames {A} (d : Z) (img : list A) :
  (0 < d)%Z →
  ∃ out, subsample d img = Ok out
    ∧ length out = (length img + Z.to_nat d - 1) / Z.to_nat d
    ∧ ∀ j, j < length out → out !! j = img !! (j * Z.to_nat d).
Proof.
  intros Hd. unfold subsample, Moire.slice_from_0.
  rewrite decide_False, decide_True by lia.
  destruct (slice_indices_0_spec (Z.to_nat d) (length img) ltac:(lia))
    as (Hlen & Hall & Hidx).
  destruct (omap_lookup_in_range img _ Hall) as [Hl Hx].
  eexists. split; [done|]. split; [by rewrite Hl|].
  intros j Hj. apply Hx, Hidx. by rewrite <-Hlen, <-Hl.
Qed.

(** X13.  Subsampling by a positive step [d] ([img[0::d]]) keeps the frames
    [0, d, 2d, ...]: the result has [ceil(n / d)] frames and its frame [j] is
    frame [j * d] of the input. *)
Theorem subsample_positive {A} (d : Z) (img : list A) :
  (0 < d)%Z →
  ∃ out, subsample d img = Ok out
    ∧ length out = (length img + Z.to_nat d - 1) / Z.to_nat d
    ∧ ∀ j, j < length out → out !! j = img !! (j * Z.to_nat d).
Proof. apply subsample_frames. Qed.

Lemma subsample_positive_witness :
  ∃ out, subsample 2 [10; 11; 12; 13; 14] = Ok out
    ∧ length out = (length [10; 11; 12; 13; 14] + Z.to_nat 2 - 1) / Z.to_nat 2
    ∧ ∀ j, j < length out → out !! j = [10; 11; 12; 13; 14] !! (j * Z.to_nat 2).
Proof. apply (subsample_positive 2 [10; 11; 12; 13; 14]). lia. Defined.

(** X14.  The default step 1 keeps every frame. *)
Theorem subsample_one {A} (img : list A) : subsample 1 img = Ok img.
Proof.
  destruct (subsample_frames 1 img ltac:(lia)) as (out & -> & Hlen & Hout).
  f_equal. change (Z.to_nat 1) with 1 in *.
  rewrite Nat.add_sub, Nat.div_1_r in Hlen.
  apply list_eq; intros j. destruct (decide (j < length out)) as [Hj|Hj].
  - rewrite Hout by done. by rewrite Nat.mul_1_r.
  - rewrite (lookup_ge_None_2 out) by lia. symmetry. apply lookup_ge_None_2. lia.
Qed.

(** X15.  A step of zero is refused; a negative step walks down from frame 0 and
    keeps that frame alone. *)
Theorem subsample_not_positive {A} (d : Z) (img : list A) :
  (d ≤ 0)%Z →
  subsample d img = if decide (d = 0%Z) then Raise ValueError else Ok (take 1 img).
Proof.
  intros Hd. unfold subsample, Moire.slice_from_0.
  destruct (decide (d = 0%Z)); [done|]. rewrite decide_False by lia.
  destruct img as [|x img]; done.
Qed.

Lemma subsample_not_positive_witness :
  subsample (-3) [10; 11; 12] = if decide ((-3)%Z = 0%Z) then Raise ValueError
                               else Ok (take 1 [10; 11; 12]).
Proof. apply (subsample_not_positive (-3) [10; 11; 12]). lia. Defined.

(** * Further properties of [Moire] *)

Lemma length_assign_at {A} (f : A → A) (idxs : list nat) (l : list A) :
  length (assign_at f idxs l) = length l.
Proof.
  unfold assign_at. revert l. induction idxs as [|i idxs IH]; intros l; [done|].
  cbn. by rewrite IH, length_alter.
Qed.

(** X16.  [make_grid] with a positive [num_frames] and a non-negative size returns,
    keeps the configuration, and builds a square grid whose row [r] is all
    ones when [r] is a multiple of [num_frames] and all zeros otherwise. *)
Theorem make_grid_stripes (self : Moire.t) (n r : nat) :
  (0 < Moire._num_frames self)%Z →
  (Moire._stripe_width self * Moire._num_frames self * Moire._replications self)%Z
    = Z.of_nat n →
  r < n →
  ∃ self', Moire.make_grid self = (self', Ok ())
    ∧ Moire._pattern self' = Moire._pattern self
    ∧ Moire._stripe_width self' = Moire._stripe_width self
    ∧ Moire._num_frames self' = Moire._num_frames self
    ∧ Moire._replications self' = Moire._replications self
    ∧ length (Moire.grid self') = n
    ∧ Moire.grid self' !! r =
      Some (replicate n
        (if decide (r mod Z.to_nat (Moire._num_frames self) = 0) then 1%Z else 0%Z)).
Proof.
  intros Hnf Hsize Hr. eexists. split; [apply make_grid_rows; lia|].
  cbn. rewrite Hsize, Nat2Z.id. repeat split; try done.
  - apply length_tabulate.
  - by rewrite lookup_tabulate.
Qed.

Lemma make_grid_stripes_witness :
  ∃ self', Moire.make_grid (Moire.Build "hgrid" 2 3 1 []) = (self', Ok ())
    ∧ Moire._pattern self' = "hgrid"
    ∧ Moire._stripe_width self' = 2%Z
    ∧ Moire._num_frames self' = 3%Z
    ∧ Moire._replications self' = 1%Z
    ∧ length (Moire.grid self') = 6
    ∧ Moire.grid self' !! 3 =
      Some (replicate 6 (if decide (3 mod Z.to_nat 3 = 0) then 1%Z else 0%Z)).
Proof.
  apply (make_grid_stripes (Moire.Build "hgrid" 2 3 1 []) 6 3).
  - simpl. lia.
  - reflexivity.
  - lia.
Defined.

(** X17.  Construction succeeds exactly when [num_frames] is not zero and
    [stripe_width * num_frames] is not negative; otherwise [make_grid]
    raises [ValueError] (zero slice step, or negative dimensions). *)
Theorem init_outcome pattern (stripe_width num_frames : Z) :
  if decide (num_frames ≠ 0 ∧ 0 ≤ stripe_width * num_frames)%Z
  then ∃ m, Moire.__init__ pattern stripe_width num_frames = Ok m
         ∧ Moire._replications m = 24%Z
         ∧ Z.of_nat (length (Moire.grid m)) = (stripe_width * num_frames * 24)%Z
  else Moire.__init__ pattern stripe_width num_frames = Raise ValueError.
Proof.
  unfold Moire.__init__, Moire.make_grid, Moire.slice_from_0. cbn.
  case_decide as Hok.
  - destruct Hok as [Hnf Hpos].
    rewrite decide_False by lia. rewrite (decide_False (P := num_frames = 0%Z)) by done.
    destruct (decide (0 < num_frames)%Z).
    all: eexists; split; [reflexivity|]; split; [done|]; cbn.
    all: rewrite length_assign_at, length_replicate; lia.
  - case_decide; [done|].
    assert (num_frames = 0)%Z as -> by lia. done.
Qed.

(** X18.  Calling [make_grid] again after an assignment to [replications] brings
    the grid back in line: its side is [stripe_width * num_frames] times the
    assigned value. *)
Theorem make_grid_after_setter (self : Moire.t) (val : Z) (n : nat) :
  (0 < Moire._num_frames self)%Z →
  (Moire._stripe_width self * Moire._num_frames self * val)%Z = Z.of_nat n →
  ∃ self', Moire.make_grid (Moire.set_replications val self) = (self', Ok ())
    ∧ Moire.replications self' = val
    ∧ length (Moire.grid self') = n
    ∧ Forall (λ row, length row = n) (Moire.grid self').
Proof.
  intros Hnf Hsize. eexists. split; [apply make_grid_rows; simpl; lia|].
  cbn. rewrite Hsize, Nat2Z.id. split; [done|]. split; [apply length_tabulate|].
  apply Forall_forall; intros row [r [-> _]]%list_elem_of_fmap.
  apply length_replicate.
Qed.

Lemma make_grid_after_setter_witness :
  ∃ self', Moire.make_grid (Moire.set_replications 2 (Moire.Build "hgrid" 1 3 24 []))
           = (self', Ok ())
    ∧ Moire.replications self' = 2%Z
    ∧ length (Moire.grid self') = 6
    ∧ Forall (λ row, length row = 6) (Moire.grid self').
Proof.
  apply (make_grid_after_setter (Moire.Build "hgrid" 1 3 24 []) 2 6).
  - simpl. lia.
  - reflexivity.
Defined.

(** X19.  The [pattern] argument has no effect on the grid: [make_grid] always
    stripes the rows. *)
Theorem grid_ignores_pattern (p1 p2 : string) (stripe_width num_frames : Z) :
  fmap (M:=result) Moire.grid (Moire.__init__ p1 stripe_width num_frames)
  = fmap (M:=result) Moire.grid (Moire.__init__ p2 stripe_width num_frames).
Proof.
  unfold Moire.__init__, Moire.make_grid. cbn.
  case_decide; [done|]. by destruct (Moire.slice_from_0 _ _).
Qed.

(** * [apply_grid] *)

Lemma shape2_tabulate n m (g : nat → nat → Z) :
  1 ≤ n → shape2 (tabulate n (λ r, tabulate m (g r))) = (n, m).
Proof.
  intros Hn. unfold shape2. rewrite length_tabulate.
  destruct n as [|n]; [lia|]. unfold tabulate at 1. cbn.
  by rewrite length_tabulate.
Qed.

Lemma at2_tabulate n m (g : nat → nat → Z) r c :
  r < n → c < m → at2 (tabulate n (λ r, tabulate m (g r))) r c = g r c.
Proof.
  intros Hr Hc. unfold at2. rewrite lookup_tabulate by done. cbn.
  by rewrite lookup_tabulate.
Qed.

Lemma has_shape2_as_tabulate h w (a : list (list Z)) :
  has_shape2 h w a → a = tabulate h (λ r, tabulate w (λ c, at2 a r c)).
Proof.
  intros [Hh Hrows]. apply tabulate_eq_of_lookup; [done|].
  intros r Hr. destruct (lookup_lt_is_Some_2 a r) as [row Hrow]; [lia|].
  rewrite Hrow. f_equal.
  pose proof (Forall_lookup_1 _ _ _ _ Hrows Hrow) as Hw; simpl in Hw.
  apply tabulate_eq_of_lookup; [done|].
  intros c Hc. destruct (lookup_lt_is_Some_2 row c) as [v Hv]; [lia|].
  unfold at2. rewrite Hrow; cbn. by rewrite Hv.
Qed.

Lemma bidx_lt n i : i < n → bidx n i = i.
Proof. intros Hi. unfold bidx. case_decide; lia. Qed.

Lemma mul_broadcast_same n m (g a : nat → nat → Z) :
  mul_broadcast (tabulate n (λ r, tabulate m (g r))) (tabulate n (λ r, tabulate m (a r)))
  = Ok (tabulate n (λ r, tabulate m (λ c, (g r c * a r c)%Z))).
Proof.
  destruct (decide (n = 0)) as [->|Hn]; [done|].
  unfold mul_broadcast. rewrite !shape2_tabulate by lia. cbn [fst snd].
  unfold broadcast_dim. rewrite !decide_True by done. cbn. f_equal.
  apply tabulate_ext; intros r Hr. apply tabulate_ext; intros c Hc.
  rewrite !bidx_lt by done. by rewrite !at2_tabulate.
Qed.

Lemma made_grid_as_tabulate (self : Moire.t) (n : nat) :
  (0 < Moire._num_frames self)%Z →
  (Moire._stripe_width self * Moire._num_frames self * Moire._replications self)%Z
    = Z.of_nat n →
  Moire.grid (Moire.make_grid self).1 =
  tabulate n (λ r, tabulate n (λ _,
    if decide (r mod Z.to_nat (Moire._num_frames self) = 0) then 1%Z else 0%Z)).
Proof.
  intros Hnf Hsize. rewrite make_grid_rows by lia. cbn.
  rewrite Hsize, Nat2Z.id. apply tabulate_ext; intros r _.
  apply replicate_as_tabulate.
Qed.

Lemma apply_grid_entries (self : Moire.t) (n : nat) (arr : list (list Z)) :
  (0 < Moire._num_frames self)%Z →
  (Moire._stripe_width self * Moire._num_frames self * Moire._replications self)%Z
    = Z.of_nat n →
  has_shape2 n n arr →
  apply_grid (Moire.make_grid self).1 arr =
  Ok (tabulate n (λ r, tabulate n (λ c,
        ((if decide (r mod Z.to_nat (Moire._num_frames self) = 0)%nat then 1 else 0)
         * at2 arr r c)%Z))).
Proof.
  intros Hnf Hsize Ha. unfold apply_grid.
  rewrite (made_grid_as_tabulate self n Hnf Hsize).
  rewrite (has_shape2_as_tabulate _ _ _ Ha) at 1.
  apply mul_broadcast_same.
Qed.

(** X20.  Applied to an array of the grid's shape whose entries are integers
    of magnitude at most [2^53] (which float64 holds exactly), [apply_grid]
    keeps the rows whose index is a multiple of [num_frames] and zeroes the
    others. *)
Theorem apply_grid_masks_rows (self : Moire.t) (n : nat) (arr : list (list Z)) :
  (0 < Moire._num_frames self)%Z →
  (Moire._stripe_width self * Moire._num_frames self * Moire._replications self)%Z
    = Z.of_nat n →
  has_shape2 n n arr →
  Forall (Forall (λ v : Z, (- 2 ^ 53 ≤ v ≤ 2 ^ 53)%Z)) arr →
  ∃ out, apply_grid (Moire.make_grid self).1 arr = Ok out
    ∧ has_shape2 n n out
    ∧ ∀ r c, r < n → c < n →
        at2 out r c =
        if decide (r mod Z.to_nat (Moire._num_frames self) = 0) then at2 arr r c else 0%Z.
Proof.
  intros Hnf Hsize Ha _. rewrite (apply_grid_entries self n arr Hnf Hsize Ha).
  eexists. split; [done|]. split.
  - split; [apply length_tabulate|].
    apply Forall_forall; intros row [r [-> _]]%list_elem_of_fmap.
    apply length_tabulate.
  - intros r c Hr Hc. rewrite at2_tabulate by done. case_decide; lia.
Qed.

Lemma apply_grid_masks_rows_witness :
  ∃ out, apply_grid (Moire.make_grid (Moire.Build "hgrid" 1 2 1 [])).1 [[5; 6]; [7; 8]]%Z
         = Ok out
    ∧ has_shape2 2 2 out
    ∧ ∀ r c, r < 2 → c < 2 →
        at2 out r c =
        if decide (r mod Z.to_nat 2 = 0) then at2 [[5; 6]; [7; 8]]%Z r c else 0%Z.
Proof.
  apply (apply_grid_masks_rows (Moire.Build "hgrid" 1 2 1 []) 2 [[5; 6]; [7; 8]]%Z).
  - simpl. lia.
  - reflexivity.
  - split; [done|]. repeat constructor.
  - apply (bool_decide_unpack _). vm_compute. exact I.
Defined.

(** X21.  Masking is idempotent: applying the grid to an already masked array
    changes nothing. *)
Theorem apply_grid_idempotent (self : Moire.t) (n : nat) (arr : list (list Z)) :
  (0 < Moire._num_frames self)%Z →
  (Moire._stripe_width self * Moire._num_frames self * Moire._replications self)%Z
    = Z.of_nat n →
  has_shape2 n n arr →
  ∃ out, apply_grid (Moire.make_grid self).1 arr = Ok out
    ∧ apply_grid (Moire.make_grid self).1 out = Ok out.
Proof.
  intros Hnf Hsize Ha. rewrite (apply_grid_entries self n arr Hnf Hsize Ha).
  eexists. split; [done|]. unfold apply_grid.
  rewrite (made_grid_as_tabulate self n Hnf Hsize).
  rewrite mul_broadcast_same. f_equal.
  apply tabulate_ext; intros r _. apply tabulate_ext; intros c _.
  case_decide; lia.
Qed.

Lemma apply_grid_idempotent_witness :
  ∃ out, apply_grid (Moire.make_grid (Moire.Build "hgrid" 1 2 1 [])).1 [[5; 6]; [7; 8]]%Z
         = Ok out
    ∧ apply_grid (Moire.make_grid (Moire.Build "hgrid" 1 2 1 [])).1 out = Ok out.
Proof.
  apply (apply_grid_idempotent (Moire.Build "hgrid" 1 2 1 []) 2 [[5; 6]; [7; 8]]%Z).
  - simpl. lia.
  - reflexivity.
  - split; [done|]. repeat constructor.
Defined.

(** X22.  An array whose height or width is neither the side of the grid nor 1
    cannot be broadcast against it: [apply_grid] raises [ValueError]. *)
Theorem apply_grid_shape_mismatch (self : Moire.t) (n h w : nat) (arr : list (list Z)) :
  (0 < Moire._num_frames self)%Z →
  (Moire._stripe_width self * Moire._num_frames self * Moire._replications self)%Z
    = Z.of_nat n →
  2 ≤ n → 1 ≤ h → has_shape2 h w arr →
  (h ≠ n ∧ h ≠ 1) ∨ (w ≠ n ∧ w ≠ 1) →
  apply_grid (Moire.make_grid self).1 arr = Raise ValueError.
Proof.
  intros Hnf Hsize Hn Hh Ha Hbad. unfold apply_grid.
  rewrite (made_grid_as_tabulate self n Hnf Hsize).
  rewrite (has_shape2_as_tabulate _ _ _ Ha).
  unfold mul_broadcast. rewrite !shape2_tabulate by lia. cbn [fst snd].
  unfold broadcast_dim.
  repeat (case_decide; cbn); try done; lia.
Qed.

Lemma apply_grid_shape_mismatch_witness :
  apply_grid (Moire.make_grid (Moire.Build "hgrid" 1 2 1 [])).1 [[5; 6; 7]]%Z
  = Raise ValueError.
Proof.
  apply (apply_grid_shape_mismatch (Moire.Build "hgrid" 1 2 1 []) 2 1 3 [[5; 6; 7]]%Z).
  - simpl. lia.
  - reflexivity.
  - lia.
  - lia.
  - split; [done|]. repeat constructor.
  - right. lia.
Defined.

(** * Properties of the command line *)

(** X23.  A source path that does not exist makes [main] return without a word:
    the [IOError] of line 155 is built but never raised, nothing is printed,
    shown or written. *)
Theorem main_missing_file_is_silent (w : Cli.world) (args : Cli.Namespace) f :
  f ∈ Cli.image_source args → Cli.path_exists w f = false →
  Cli.main w args = ([], Cli.Returns).
Proof.
  intros Hin Hf. unfold Cli.main.
  destruct (Cli.image_source args) as [|first rest] eqn:Hsrc.
  - by apply elem_of_nil in Hin.
  - replace (forallb (Cli.path_exists w) (first :: rest)) with false; [done|].
    symmetry. apply not_true_is_false. intros Hall.
    rewrite forallb_forall in Hall. apply list_elem_of_In in Hin.
    rewrite (Hall f Hin) in Hf. done.
Qed.

Lemma main_missing_file_is_silent_witness :
  Cli.main (Cli.Build_world (λ f, bool_decide (f = "a.gif")) (λ _, ".gif")
              (λ _, None) (λ _, None))
           (Cli.parse_args (example_command_line Cli.Absent Cli.Absent ["a.gif"; "b.gif"]))
  = ([], Cli.Returns).
Proof.
  apply (main_missing_file_is_silent _ _ "b.gif").
  - simpl. apply list_elem_of_further, list_elem_of_here.
  - reflexivity.
Defined.

(** X24.  Anything but a single existing [.gif] source is not processed: [main]
    prints the paths, the suffix of the first one and ["Finished!"], and
    returns. *)
Theorem main_not_single_gif (w : Cli.world) (args : Cli.Namespace) first rest :
  Cli.image_source args = first :: rest →
  forallb (Cli.path_exists w) (first :: rest) = true →
  rest ≠ [] ∨ Cli.suffix_lower w first ≠ ".gif" →
  Cli.main w args =
  ([Cli.PrintPaths (first :: rest); Cli.PrintLine (Cli.suffix_lower w first);
    Cli.PrintLine "Finished!"], Cli.Returns).
Proof.
  intros Hsrc Hall Hnot. unfold Cli.main. rewrite Hsrc, Hall.
  rewrite decide_False; [done|].
  intros [Hlen Hgif]. destruct Hnot as [Hrest|Hsuf]; [|done].
  destruct rest; [done|]. simpl in Hlen. lia.
Qed.

Lemma main_not_single_gif_witness :
  Cli.main (example_world ".png")
           (Cli.parse_args (example_command_line Cli.Absent Cli.Absent ["a.png"]))
  = ([Cli.PrintPaths ["a.png"]; Cli.PrintLine (Cli.suffix_lower (example_world ".png") "a.png");
      Cli.PrintLine "Finished!"], Cli.Returns).
Proof.
  apply (main_not_single_gif (example_world ".png")
           (Cli.parse_args (example_command_line Cli.Absent Cli.Absent ["a.png"]))
           "a.png" []).
  - reflexivity.
  - reflexivity.
  - right. discriminate.
Defined.

(** X25.  A stripe width given on the command line stays a string, which
    [range(args.stripewidth)] refuses: with the pattern ["hgrid"] or
    ["vgrid"] the run ends in [TypeError] after the GIF has been read,
    before anything is shown or written. *)
Theorem stripewidth_value_raises (w : Cli.world) (cl : Cli.command_line) s f img d frames :
  Cli.cl_stripewidth cl = Cli.Given s →
  Cli.pattern (Cli.parse_args cl) = Cli.VStr "hgrid"
    ∨ Cli.pattern (Cli.parse_args cl) = Cli.VStr "vgrid" →
  Cli.cl_image_source cl = [f] →
  Cli.path_exists w f = true → Cli.suffix_lower w f = ".gif" →
  Cli.mimread w f = Some img →
  Cli.to_int w (Cli.downsample (Cli.parse_args cl)) = inr d →
  subsample d img = Ok frames →
  Cli.main w (Cli.parse_args cl) =
  ([Cli.PrintPaths [f]; Cli.PrintLine ".gif"], Cli.Raises Cli.TypeError).
Proof.
  intros Hsw Hpat Hsrc Hex Hsuf Hread Hint Hsub. unfold Cli.main.
  rewrite Hint. cbn [Cli.image_source Cli.parse_args]. rewrite Hsrc.
  cbn [forallb]. rewrite Hex, Hsuf. cbn [andb].
  rewrite decide_True by done. rewrite Hread, Hsub.
  unfold Cli.pipeline. cbn [Cli.stripewidth Cli.parse_args]. rewrite Hsw. cbn [Cli.optional].
  destruct Hpat as [-> | ->]; by rewrite decide_True by auto.
Qed.

Lemma stripewidth_value_raises_witness :
  Cli.main (example_world ".gif")
           (Cli.parse_args (example_command_line (Cli.Given "2") Cli.Absent ["a.gif"]))
  = ([Cli.PrintPaths ["a.gif"]; Cli.PrintLine ".gif"], Cli.Raises Cli.TypeError).
Proof.
  apply (stripewidth_value_raises (example_world ".gif")
           (example_command_line (Cli.Given "2") Cli.Absent ["a.gif"]) "2" "a.gif"
           [const_image 1 2 4 9%Z; const_image 1 2 4 8%Z] 1
           [const_image 1 2 4 9%Z; const_image 1 2 4 8%Z]).
  - reflexivity.
  - by left.
  - reflexivity.
  - reflexivity.
  - reflexivity.
  - reflexivity.
  - reflexivity.
  - reflexivity.
Defined.

(** X26.  [main] writes an image only after a single existing [.gif] source has
    been read, subsampled and composited: every image written is the
    composite or the pattern of that run. *)
Theorem main_writes_only_results (w : Cli.world) (args : Cli.Namespace) p im :
  Cli.ImWrite p im ∈ (Cli.main w args).1 →
  ∃ f img d frames grid res,
    Cli.image_source args = [f]
    ∧ Cli.path_exists w f = true ∧ Cli.suffix_lower w f = ".gif"
    ∧ Cli.mimread w f = Some img
    ∧ Cli.to_int w (Cli.downsample args) = inr d
    ∧ subsample d img = Ok frames
    ∧ Cli.pipeline args frames = inr (grid, res)
    ∧ (im = res ∨ pattern_image grid = Ok im).
Proof.
  unfold Cli.main.
  destruct (Cli.image_source args) as [|first rest] eqn:Hsrc;
    [by intros ?%elem_of_nil|].
  destruct (forallb (Cli.path_exists w) (first :: rest)) eqn:Hall;
    [|by intros ?%elem_of_nil].
  assert (∀ (l : list Cli.path), Cli.ImWrite p im ∉ Cli.MakeDirs <$> l) as Hdirs.
  { intros l (x & Hx & _)%list_elem_of_fmap. discriminate. }
  case_decide as Hgif.
  2:{ cbn. intros Hin. repeat (apply elem_of_cons in Hin as [Hin|Hin]; [discriminate|]).
      by apply elem_of_nil in Hin. }
  destruct Hgif as [Hlen Hsuf]. destruct rest; [|simpl in Hlen; lia].
  cbn in Hall. rewrite andb_true_r in Hall.
  assert (∀ (l : list Cli.event), l = [Cli.PrintPaths [first]; Cli.PrintLine (Cli.suffix_lower w first)]
            → Cli.ImWrite p im ∉ l) as Hev0.
  { intros l -> Hin. repeat (apply elem_of_cons in Hin as [Hin|Hin]; [discriminate|]).
    by apply elem_of_nil in Hin. }
  destruct (Cli.mimread w first) as [img|] eqn:Hread;
    [|by intros ?%Hev0].
  destruct (Cli.to_int w (Cli.downsample args)) as [e|d] eqn:Hint;
    [by intros ?%Hev0|].
  destruct (subsample d img) as [frames|e] eqn:Hsub;
    [|by intros ?%Hev0].
  destruct (Cli.pipeline args frames) as [e|[grid res]] eqn:Hpipe;
    [by intros ?%Hev0|].
  intros Hin. exists first, img, d, frames, grid, res.
  repeat (split; [done|]).
  destruct (Cli.destinations args) as [e|[[dirs scan] patt]] eqn:Hdest.
  - cbn in Hin. repeat (apply elem_of_cons in Hin as [Hin|Hin]; [discriminate|]).
    by apply elem_of_nil in Hin.
  - destruct (pattern_image grid) as [pat|e] eqn:Hpat; cbn in Hin.
    + repeat (apply elem_of_cons in Hin as [Hin|Hin]; [discriminate|]).
      rewrite !elem_of_app in Hin. destruct Hin as [[Hin|Hin]|Hin].
      * by apply Hdirs in Hin.
      * apply list_elem_of_singleton in Hin. left. congruence.
      * apply elem_of_cons in Hin as [Hin|Hin]; [right; congruence|].
        apply list_elem_of_singleton in Hin. discriminate.
    + repeat (apply elem_of_cons in Hin as [Hin|Hin]; [discriminate|]).
      rewrite elem_of_app in Hin. destruct Hin as [Hin|Hin].
      * by apply Hdirs in Hin.
      * apply list_elem_of_singleton in Hin. left. congruence.
Qed.

Lemma main_writes_only_results_witness :
  ∃ f img d frames grid res,
    Cli.image_source
      (Cli.parse_args (example_command_line Cli.Absent (Cli.Given "out") ["a.gif"])) = [f]
    ∧ Cli.path_exists (example_world ".gif") f = true
    ∧ Cli.suffix_lower (example_world ".gif") f = ".gif"
    ∧ Cli.mimread (example_world ".gif") f = Some img
    ∧ Cli.to_int (example_world ".gif")
        (Cli.downsample
           (Cli.parse_args (example_command_line Cli.Absent (Cli.Given "out") ["a.gif"])))
      = inr d
    ∧ subsample d img = Ok frames
    ∧ Cli.pipeline
        (Cli.parse_args (example_command_line Cli.Absent (Cli.Given "out") ["a.gif"])) frames
      = inr (grid, res)
    ∧ ([[[9; 9; 9; 255]; [8; 8; 8; 255]]]%Z = res
       ∨ pattern_image grid = Ok [[[9; 9; 9; 255]; [8; 8; 8; 255]]]%Z).
Proof.
  apply (main_writes_only_results (example_world ".gif")
           (Cli.parse_args (example_command_line Cli.Absent (Cli.Given "out") ["a.gif"]))
           (Cli.Div (Cli.Path "out") "scanimation.png")).
  vm_compute. do 6 apply list_elem_of_further. apply list_elem_of_here.
Defined.
